(** * PyUpdateTrackTools: a shallow embedding of TrackTools/PyUpdateTrackTools.py

    The script scans its directory for archives and installers, turns each
    file name into a display name ([normalize_tool_name]), asks two remote
    services for a one-sentence description ([query_tool_function]), renders
    a two-column Markdown table ([build_markdown_table]) and writes it into a
    companion document ([update_markdown_file], [main]).

    Text.  A Python [str] is modelled as a Rocq [string].  An ASCII character
    is itself; a character outside ASCII stands as the bytes of its UTF-8
    encoding.  Operations that only look for ASCII characters (splitting at a
    period, replacing spaces, searching for the table header, joining lines)
    are exact on every text.  The classifications the normalizer relies on
    (decimal digit, white space, letter case, also when a pattern ignores
    case) are Python's on ASCII; title-casing also knows the letters from
    U+0080 to U+017F.  Other bytes above 127 are neither digits, spaces nor
    cased letters here, so results that depend on them are stated for ASCII
    names.

    Library code.  [re], [pathlib] and the [str] methods are modelled as far
    as the script uses them: a backtracking matcher for the patterns, the
    replacement templates of [re.sub], the name, stem and suffix of a path.
    Recursion that is not structural runs on fuel, and the fuel is shown to
    be never used up ([star_loop_fuel], [finditer_fuel],
    [parse_template_fuel]).

    Effects.  Exceptions are values of [result]; the remote services are an
    oracle that answers each request from the history of earlier requests;
    the requests issued are kept in a log; the target document is an
    [option string] ([None]: the file does not exist), the text [read_text]
    returns for it.  A document in valid UTF-8 without carriage return is
    read as it is stored ([read_verbatim]); what is said of the stored
    document is said of such documents. *)

From Stdlib Require Import Ascii String List Bool Arith NArith ZArith Lia.
From Stdlib Require Import Permutation Sorted.
Import ListNotations.
Open Scope list_scope.
Open Scope string_scope.

(* ================================================================= *)
(** ** Characters *)

Module Char.

Definition code (c : ascii) : N := N_of_ascii c.

Definition between (lo hi : N) (c : ascii) : bool :=
  ((lo <=? code c) && (code c <=? hi))%N.

Definition is_ascii (c : ascii) : bool := (code c <? 128)%N.

(** [\d] and [str.isdecimal] on ASCII. *)
Definition isdigit (c : ascii) : bool := between 48 57 c.
Definition isoctal (c : ascii) : bool := between 48 55 c.
Definition isupper (c : ascii) : bool := between 65 90 c.
Definition islower (c : ascii) : bool := between 97 122 c.
Definition isalpha (c : ascii) : bool := isupper c || islower c.
Definition iscased (c : ascii) : bool := isalpha c.

(** [str.isspace] on ASCII: TAB, LF, VT, FF, CR, FS, GS, RS, US and SPACE. *)
Definition isspace (c : ascii) : bool := between 9 13 c || between 28 32 c.

Definition lower (c : ascii) : ascii :=
  if isupper c then ascii_of_N (code c + 32) else c.

Definition upper (c : ascii) : ascii :=
  if islower c then ascii_of_N (code c - 32) else c.

Definition newline : ascii := ascii_of_N 10.
Definition backslash : ascii := ascii_of_N 92.

End Char.

(* ================================================================= *)
(** ** Strings: the [str] methods the script calls *)

Definition nl : string := String Char.newline "".

Fixpoint str_map (f : ascii -> ascii) (s : string) : string :=
  match s with
  | "" => ""
  | String c s' => String (f c) (str_map f s')
  end.

Fixpoint str_forallb (p : ascii -> bool) (s : string) : bool :=
  match s with
  | "" => true
  | String c s' => p c && str_forallb p s'
  end.

Fixpoint str_existsb (p : ascii -> bool) (s : string) : bool :=
  match s with
  | "" => false
  | String c s' => p c || str_existsb p s'
  end.

Definition is_ascii (s : string) : bool := str_forallb Char.is_ascii s.

Fixpoint str_take (n : nat) (s : string) : string :=
  match n, s with
  | S n', String c s' => String c (str_take n' s')
  | _, _ => ""
  end.

Fixpoint str_drop (n : nat) (s : string) : string :=
  match n, s with
  | S n', String _ s' => str_drop n' s'
  | _, _ => s
  end.

(** [s.startswith(p)] *)
Fixpoint startswith (p s : string) : bool :=
  match p, s with
  | "", _ => true
  | String a p', String b s' => Ascii.eqb a b && startswith p' s'
  | String _ _, "" => false
  end.

(** [p in s] *)
Fixpoint str_contains (p s : string) : bool :=
  startswith p s ||
  match s with
  | "" => false
  | String _ s' => str_contains p s'
  end.

(** Number of positions of [s] at which [p] occurs. *)
Fixpoint occurrences (p s : string) : nat :=
  (if startswith p s then 1 else 0) +
  match s with
  | "" => 0
  | String _ s' => occurrences p s'
  end.

(** [s.lower()] *)
Definition str_lower (s : string) : string := str_map Char.lower s.

(** Title-casing of ASCII text: a letter is upper-cased when the character
    before it is no letter, and lower-cased otherwise. *)
Fixpoint title_from (previous_is_cased : bool) (s : string) : string :=
  match s with
  | "" => ""
  | String c s' =>
      String (if previous_is_cased then Char.lower c else Char.upper c)
             (title_from (Char.iscased c) s')
  end.

(** Letter case of the characters U+0080 to U+017F (Latin-1 Supplement and
    Latin Extended-A), by code point: the title case and the lower case of a
    character, each one or two characters, and whether it is cased. *)
Module Latin.

Definition within (lo hi n : N) : bool := ((lo <=? n) && (n <=? hi))%N.

(** Pairs with the capital on the even code point, and on the odd one. *)
Definition even_pairs (n : N) : bool :=
  within 256 303 n || within 306 311 n || within 330 375 n.

Definition odd_pairs (n : N) : bool :=
  within 313 328 n || within 377 382 n.

Definition is_upper (n : N) : bool :=
  (within 192 222 n && negb (n =? 215)%N)
  || (n =? 304)%N || (n =? 376)%N
  || (even_pairs n && N.even n) || (odd_pairs n && N.odd n).

Definition is_lower (n : N) : bool :=
  (within 223 255 n && negb (n =? 247)%N)
  || (n =? 170)%N || (n =? 181)%N || (n =? 186)%N
  || (n =? 305)%N || (n =? 312)%N || (n =? 329)%N || (n =? 383)%N
  || (even_pairs n && N.odd n) || (odd_pairs n && N.even n).

Definition iscased (n : N) : bool := is_upper n || is_lower n.

Definition lower (n : N) : list N :=
  if (n =? 304)%N then [105; 775]%N            (* U+0130: i and U+0307 *)
  else if (n =? 376)%N then [255]%N            (* U+0178 *)
  else if within 192 222 n && negb (n =? 215)%N then [n + 32]%N
  else if is_upper n then [n + 1]%N
  else [n].

Definition title (n : N) : list N :=
  if (n =? 223)%N then [83; 115]%N             (* U+00DF: Ss *)
  else if (n =? 255)%N then [376]%N
  else if (n =? 181)%N then [924]%N            (* U+00B5: U+039C *)
  else if (n =? 305)%N then [73]%N             (* U+0131: I *)
  else if (n =? 329)%N then [700; 78]%N        (* U+0149: U+02BC N *)
  else if (n =? 383)%N then [83]%N             (* U+017F: S *)
  else if (n =? 170)%N || (n =? 186)%N || (n =? 312)%N then [n]
  else if within 224 254 n && negb (n =? 247)%N then [n - 32]%N
  else if is_lower n then [n - 1]%N
  else [n].

End Latin.

(** UTF-8 of a code point below U+0800, and the code point of a two-byte
    sequence for U+0080 to U+017F. *)
Definition utf8_encode (n : N) : string :=
  if (n <? 128)%N then String (ascii_of_N n) ""
  else String (ascii_of_N (192 + n / 64))
              (String (ascii_of_N (128 + n mod 64)) "").

Fixpoint utf8_encode_all (l : list N) : string :=
  match l with
  | [] => ""
  | n :: l' => utf8_encode n ++ utf8_encode_all l'
  end.

Definition latin_pair (c d : ascii) : option N :=
  if Char.between 194 197 c && Char.between 128 191 d
  then Some ((Char.code c - 192) * 64 + (Char.code d - 128))%N
  else None.

(** [s.title()]: a cased character is title-cased when the character before
    it is not cased, and lower-cased otherwise.  ASCII letters and the
    characters U+0080 to U+017F have their case; every other byte is kept
    and counts as not cased. *)
Fixpoint title_utf8 (previous_is_cased : bool) (s : string) : string :=
  match s with
  | "" => ""
  | String c s' =>
      let one_byte :=
        String (if previous_is_cased then Char.lower c else Char.upper c)
               (title_utf8 (Char.iscased c) s') in
      match s' with
      | String d rest =>
          match latin_pair c d with
          | Some n =>
              utf8_encode_all (if previous_is_cased then Latin.lower n
                               else Latin.title n)
              ++ title_utf8 (Latin.iscased n) rest
          | None => one_byte
          end
      | "" => one_byte
      end
  end.

Definition str_title (s : string) : string := title_utf8 false s.

Fixpoint str_lstrip (s : string) : string :=
  match s with
  | "" => ""
  | String c s' => if Char.isspace c then str_lstrip s' else s
  end.

Fixpoint str_rstrip (s : string) : string :=
  match s with
  | "" => ""
  | String c s' =>
      match str_rstrip s' with
      | "" => if Char.isspace c then "" else String c ""
      | t => String c t
      end
  end.

(** [s.strip()] *)
Definition str_strip (s : string) : string := str_rstrip (str_lstrip s).

(** [s.replace(a, b)] for one-character [a] and [b]. *)
Definition str_replace (a b : ascii) (s : string) : string :=
  str_map (fun c => if Ascii.eqb c a then b else c) s.

(** [s.split(sep)] for a one-character separator; never the empty list. *)
Fixpoint str_split (sep : ascii) (s : string) : list string :=
  match s with
  | "" => [""]
  | String c s' =>
      let pieces := str_split sep s' in
      if Ascii.eqb c sep then "" :: pieces
      else match pieces with
           | p :: ps => String c p :: ps
           | [] => [String c ""]
           end
  end.

(** [sep.join(pieces)] *)
Fixpoint str_join (sep : string) (pieces : list string) : string :=
  match pieces with
  | [] => ""
  | [p] => p
  | p :: ps => p ++ sep ++ str_join sep ps
  end.

(** [s.rfind(c)] for a one-character [c]; [None] stands for -1. *)
Fixpoint str_rfind (c : ascii) (s : string) : option nat :=
  match s with
  | "" => None
  | String a s' =>
      match str_rfind c s' with
      | Some i => Some (S i)
      | None => if Ascii.eqb a c then Some 0 else None
      end
  end.

(* ================================================================= *)
(** ** Exceptions *)

(** The exception classes that can reach the script; all of them derive from
    [Exception], so [except Exception] catches each one.  [BadTemplate] is
    what [re.sub] raises on a replacement text it cannot parse ([re.error],
    or [IndexError] for an unknown group name). *)
Inductive exn : Type :=
  | ConnectionError
  | Timeout
  | JSONDecodeError
  | AttributeError
  | TypeError
  | KeyError
  | IndexError
  | BadTemplate.

Inductive result (A : Type) : Type :=
  | Ok (a : A)
  | Raise (e : exn).

Arguments Ok {A} a.
Arguments Raise {A} e.

Definition result_bind {A B} (x : result A) (f : A -> result B) : result B :=
  match x with
  | Ok a => f a
  | Raise e => Raise e
  end.

Definition result_map {A B} (f : A -> B) (x : result A) : result B :=
  result_bind x (fun a => Ok (f a)).

(* ================================================================= *)
(** ** Regular expressions: the fragment of [re] the script uses *)

Module Re.

Record flags : Type := { ignorecase : bool; multiline : bool }.

Definition no_flags : flags := {| ignorecase := false; multiline := false |}.
Definition I : flags := {| ignorecase := true; multiline := false |}.
Definition MULTILINE : flags := {| ignorecase := false; multiline := true |}.

Inductive regex : Type :=
  | Eps
  | Lit (c : ascii)                 (* a literal character *)
  | In (p : ascii -> bool)          (* a character set or class *)
  | Cat (r1 r2 : regex)
  | Alt (r1 r2 : regex)             (* r1|r2, r1 first *)
  | Star (greedy : bool) (r : regex) (* r* and r*? *)
  | Eol.                            (* $ *)

(** [[\s\S]]: every character. *)
Definition any_char : ascii -> bool := fun _ => true.

Definition Plus (r : regex) : regex := Cat r (Star true r).
Definition Opt (r : regex) : regex := Alt r Eps.

Fixpoint Word (w : string) : regex :=
  match w with
  | "" => Eps
  | String c w' => Cat (Lit c) (Word w')
  end.

Definition lit_matches (fl : flags) (c a : ascii) : bool :=
  if ignorecase fl then Ascii.eqb (Char.lower c) (Char.lower a)
  else Ascii.eqb c a.

Definition in_matches (fl : flags) (p : ascii -> bool) (a : ascii) : bool :=
  if ignorecase fl then p a || p (Char.lower a) || p (Char.upper a)
  else p a.

(** [$]: at the end of the text or, at the end, before a final newline;
    with MULTILINE before every newline. *)
Definition at_eol (fl : flags) (s : string) : bool :=
  match s with
  | "" => true
  | String c s' =>
      Ascii.eqb c Char.newline &&
      (multiline fl || match s' with "" => true | _ => false end)
  end.

(** Backtracking matcher in continuation-passing style: [mt fl r s k] matches
    [r] at the start of [s] and hands the rest of the text to [k]; the first
    alternative, in the priority order of [re], that [k] accepts wins.

    [star_loop] repeats [body]: the greedy star tries one more iteration
    before it tries to go on, the lazy star the other way round.  An
    iteration must consume a character, so [String.length s] iterations are
    as many as can happen. *)
Fixpoint star_loop (body : string -> (string -> option string) -> option string)
    (greedy : bool) (k : string -> option string) (n : nat) (s : string)
    {struct n} : option string :=
  match n with
  | 0 => k s
  | S n' =>
      let more (_ : unit) :=
        body s (fun s' =>
          if (String.length s' <? String.length s)%nat
          then star_loop body greedy k n' s'
          else None) in
      if greedy then
        match more tt with Some x => Some x | None => k s end
      else
        match k s with Some x => Some x | None => more tt end
  end.

Fixpoint mt (fl : flags) (r : regex) (s : string)
    (k : string -> option string) {struct r} : option string :=
  match r with
  | Eps => k s
  | Lit c =>
      match s with
      | String a s' => if lit_matches fl c a then k s' else None
      | "" => None
      end
  | In p =>
      match s with
      | String a s' => if in_matches fl p a then k s' else None
      | "" => None
      end
  | Cat r1 r2 => mt fl r1 s (fun s' => mt fl r2 s' k)
  | Alt r1 r2 =>
      match mt fl r1 s k with
      | Some x => Some x
      | None => mt fl r2 s k
      end
  | Star greedy r1 => star_loop (mt fl r1) greedy k (String.length s) s
  | Eol => if at_eol fl s then k s else None
  end.

(** One match attempt at the start of [s]; the rest of the text after the
    match.  With [must_advance] an empty match is refused and the matcher
    backtracks (a search that resumes where an empty match ended). *)
Definition match_at (fl : flags) (r : regex) (must_advance : bool)
    (s : string) : option string :=
  mt fl r s (fun s' =>
    if must_advance && (String.length s' =? String.length s)%nat then None
    else Some s').

(** Puts an unmatched character in front of the pieces of a scan. *)
Definition push_char (c : ascii) (x : list (string * string) * string)
    : list (string * string) * string :=
  match x with
  | ([], tail) => ([], String c tail)
  | ((gap, m) :: ms, tail) => ((String c gap, m) :: ms, tail)
  end.

(** The successive non-overlapping matches of [r] in [s], leftmost first:
    each with the unmatched text before it, and the unmatched tail.  This is
    the loop under [re.sub], [re.split] and [re.finditer]: after a match the
    search resumes where the match ended, and after an empty match it must
    advance. *)
Fixpoint scan (fuel : nat) (fl : flags) (r : regex) (must_advance : bool)
    (s : string) : list (string * string) * string :=
  match fuel with
  | 0 => ([], s)
  | S fuel' =>
      match match_at fl r must_advance s with
      | Some rest =>
          let m := str_take (String.length s - String.length rest) s in
          let '(ms, tail) := scan fuel' fl r (String.length m =? 0)%nat rest in
          (("", m) :: ms, tail)
      | None =>
          match s with
          | "" => ([], "")
          | String c s' => push_char c (scan fuel' fl r false s')
          end
      end
  end.

Definition finditer (fl : flags) (r : regex) (s : string)
    : list (string * string) * string :=
  scan (2 * String.length s + 2) fl r false s.

(** [re.search(r, s) is not None] *)
Definition found (fl : flags) (r : regex) (s : string) : bool :=
  match fst (finditer fl r s) with
  | [] => false
  | _ :: _ => true
  end.

(** [re.split(r, s)] for a pattern without groups. *)
Definition split (fl : flags) (r : regex) (s : string) : list string :=
  let '(ms, tail) := finditer fl r s in
  (map fst ms ++ [tail])%list.

End Re.

Notation "'let?' x ':=' e 'in' k" := (result_bind e (fun x => k))
  (at level 10, x name, e at level 100, k at level 200).

(* ================================================================= *)
(** ** Replacement templates of [re.sub] *)

(** [re.sub] reads its replacement text as a template: a backslash starts an
    escape.  The one replacement of the script that is not a constant is the
    table text, and it goes with the table pattern, which has no group: the
    only group a template can name there is group 0, the whole match.  (The
    two patterns that have a group are used with the empty template.)  The
    parser below follows [re._parser.parse_template] of CPython 3.12 for a
    pattern without groups. *)
Module Template.

Inductive piece : Type :=
  | Literal (t : string)
  | WholeMatch.

(** [chr n] for [n <= 255], as UTF-8. *)
Definition chr (n : N) : string :=
  if (n <? 128)%N then String (ascii_of_N n) ""
  else String (ascii_of_N (192 + n / 64)) (String (ascii_of_N (128 + n mod 64)) "").

Definition digit_value (c : ascii) : N := Char.code c - 48.

Definition number (base : N) (digits : list ascii) : N :=
  fold_left (fun acc d => (acc * base + digit_value d)%N) digits 0%N.

(** The text up to the first [terminator] and the text after it. *)
Fixpoint getuntil (terminator : ascii) (s : string) : option (string * string) :=
  match s with
  | "" => None
  | String c s' =>
      if Ascii.eqb c terminator then Some ("", s')
      else match getuntil terminator s' with
           | Some (name, rest) => Some (String c name, rest)
           | None => None
           end
  end.

(** \a \b \f \n \r \t \v and the doubled backslash. *)
Definition escapes (c : ascii) : option ascii :=
  if Ascii.eqb c "a" then Some (ascii_of_N 7)
  else if Ascii.eqb c "b" then Some (ascii_of_N 8)
  else if Ascii.eqb c "f" then Some (ascii_of_N 12)
  else if Ascii.eqb c "n" then Some (ascii_of_N 10)
  else if Ascii.eqb c "r" then Some (ascii_of_N 13)
  else if Ascii.eqb c "t" then Some (ascii_of_N 9)
  else if Ascii.eqb c "v" then Some (ascii_of_N 11)
  else if Ascii.eqb c Char.backslash then Some Char.backslash
  else None.

Definition lit (t : string) (rest : result (list piece)) : result (list piece) :=
  result_map (cons (Literal t)) rest.

Fixpoint parse (fuel : nat) (s : string) : result (list piece) :=
  match fuel with
  | 0 => Ok []
  | S fuel' =>
    match s with
    | "" => Ok []
    | String c rest =>
      if negb (Ascii.eqb c Char.backslash) then
        lit (String c "") (parse fuel' rest)
      else
        match rest with
        | "" => Raise BadTemplate                 (* a lone final backslash *)
        | String e rest1 =>
          if Ascii.eqb e "g" then
            (* \g<name>: only group 0 exists *)
            match rest1 with
            | String lt rest2 =>
                if Ascii.eqb lt "<" then
                  match getuntil ">" rest2 with
                  | Some (name, rest3) =>
                      if (String.length name =? 0)%nat then Raise BadTemplate
                      else if str_forallb Char.isdigit name
                              && (number 10 (list_ascii_of_string name) =? 0)%N
                      then result_map (cons WholeMatch) (parse fuel' rest3)
                      else Raise BadTemplate
                  | None => Raise BadTemplate
                  end
                else Raise BadTemplate
            | "" => Raise BadTemplate
            end
          else if Ascii.eqb e "0" then
            (* \0 and up to two more octal digits *)
            match rest1 with
            | String d1 rest2 =>
                if Char.isoctal d1 then
                  match rest2 with
                  | String d2 rest3 =>
                      if Char.isoctal d2
                      then lit (chr (N.land (number 8 [d1; d2]) 255))
                               (parse fuel' rest3)
                      else lit (chr (number 8 [d1])) (parse fuel' rest2)
                  | "" => lit (chr (number 8 [d1])) (parse fuel' rest2)
                  end
                else lit (chr 0) (parse fuel' rest1)
            | "" => lit (chr 0) (parse fuel' rest1)
            end
          else if Char.isdigit e then
            (* three octal digits make a character; anything else is a
               reference to a group from 1 on, and there is none *)
            match rest1 with
            | String d1 (String d2 rest3) =>
                if Char.isoctal e && Char.isoctal d1 && Char.isoctal d2 then
                  let c := number 8 [e; d1; d2] in
                  if (255 <? c)%N then Raise BadTemplate
                  else lit (chr c) (parse fuel' rest3)
                else Raise BadTemplate
            | _ => Raise BadTemplate
            end
          else
            match escapes e with
            | Some x => lit (String x "") (parse fuel' rest1)
            | None =>
                if Char.isalpha e then Raise BadTemplate
                else lit (String c (String e "")) (parse fuel' rest1)
            end
        end
    end
  end.

Definition parse_template (repl : string) : result (list piece) :=
  parse (S (String.length repl)) repl.

Fixpoint expand (pieces : list piece) (m : string) : string :=
  match pieces with
  | [] => ""
  | Literal t :: ps => t ++ expand ps m
  | WholeMatch :: ps => m ++ expand ps m
  end.

End Template.

Module ReSub.

Fixpoint substitute (pieces : list Template.piece)
    (ms : list (string * string)) (tail : string) : string :=
  match ms with
  | [] => tail
  | (gap, m) :: ms' =>
      gap ++ Template.expand pieces m ++ substitute pieces ms' tail
  end.

(** [re.sub(r, repl, s, flags=fl)]: the template is parsed first, then every
    match is replaced by its expansion. *)
Definition sub (fl : Re.flags) (r : Re.regex) (repl s : string) : result string :=
  let? pieces := Template.parse_template repl in
  let '(ms, tail) := Re.finditer fl r s in
  Ok (substitute pieces ms tail).

End ReSub.

(* ================================================================= *)
(** ** Paths: [pathlib] on a POSIX system *)

(** The names [iterdir] yields have no separator; for them the name, the
    stem and the suffix are the same on every system. *)

(** [PurePath(p).name]: the last component that is neither empty nor [.] *)
Definition path_name (p : string) : string :=
  last (filter (fun x => negb (String.eqb x "") && negb (String.eqb x "."))
               (str_split "/" p)) "".

(** A name has a suffix when its last period is neither its first nor its
    last character. *)
Definition suffix_start (name : string) : option nat :=
  match str_rfind "." name with
  | Some i =>
      if (0 <? i)%nat && (i <? String.length name - 1)%nat then Some i else None
  | None => None
  end.

(** [PurePath.suffix] and [PurePath.stem] of a name. *)
Definition name_suffix (name : string) : string :=
  match suffix_start name with
  | Some i => str_drop i name
  | None => ""
  end.

Definition name_stem (name : string) : string :=
  match suffix_start name with
  | Some i => str_take i name
  | None => name
  end.

(* ================================================================= *)
(** ** Configuration *)

Definition SUPPORTED_EXTENSIONS : list string := [".7z"; ".zip"; ".rar"; ".exe"].
Definition TARGET_MD_NAME : string := "Win DailyUse Track Tools.md".
Definition HEADERS : list (string * string) :=
  [("User-Agent", "WinToolsTableGenerator/1.0")].

(* ================================================================= *)
(** ** Tool name normalization *)

(** [(x64|x86|win32|win64)] *)
Definition arch_re : Re.regex :=
  Re.Alt (Re.Word "x64") (Re.Alt (Re.Word "x86")
    (Re.Alt (Re.Word "win32") (Re.Word "win64"))).

(** [v?\d+(\.\d+)*] *)
Definition version_re : Re.regex :=
  Re.Cat (Re.Opt (Re.Lit "v"))
    (Re.Cat (Re.Plus (Re.In Char.isdigit))
       (Re.Star true (Re.Cat (Re.Lit ".") (Re.Plus (Re.In Char.isdigit))))).

Definition utf8_pair (a b : N) : string :=
  String (ascii_of_N a) (String (ascii_of_N b) "").

(** The set of line 36.  In the file as it is stored the full-width
    parenthesis is mis-decoded into three characters, U+00EF, U+00BC and
    U+02C6, so the set has six members: underscore, hyphen, these three, and
    the ASCII open parenthesis.  The three are matched through their UTF-8
    bytes. *)
Definition annotation_re : Re.regex :=
  Re.Alt (Re.In (fun c => Ascii.eqb c "_" || Ascii.eqb c "-" || Ascii.eqb c "("))
    (Re.Alt (Re.Word (utf8_pair 195 175))
      (Re.Alt (Re.Word (utf8_pair 194 188)) (Re.Word (utf8_pair 203 134)))).

(** [[._\-]+] *)
Definition separator_re : Re.regex :=
  Re.Plus (Re.In (fun c => Ascii.eqb c "." || Ascii.eqb c "_" || Ascii.eqb c "-")).

(** Line 27: [Path(filename).stem] *)
Definition strip_extension (filename : string) : string :=
  name_stem (path_name filename).

(** Line 30: [re.sub] of the architecture pattern by the empty text, case
    ignored. *)
Definition strip_arch (name : string) : result string :=
  ReSub.sub Re.I arch_re "" name.

(** Line 33: [re.sub] of the version pattern by the empty text, case
    ignored. *)
Definition strip_version (name : string) : result string :=
  ReSub.sub Re.I version_re "" name.

(** Line 36: [re.split(..., name)[0]]; the list is never empty
    ([split_not_nil]). *)
Definition truncate_at_separator (name : string) : string :=
  hd "" (Re.split Re.no_flags annotation_re name).

(** Line 39: [re.sub] of the separator pattern by one space. *)
Definition collapse_separators (name : string) : result string :=
  ReSub.sub Re.no_flags separator_re " " name.

(** Lines 20-41.  [re.sub] can raise on a bad template, so the steps are in
    [result]; with the constant templates of the source they never do
    ([normalize_tool_name_clean]). *)
Definition normalize_tool_name (filename : string) : result string :=
  let name := strip_extension filename in
  let? name := strip_arch name in
  let? name := strip_version name in
  let name := truncate_at_separator name in
  let? name := collapse_separators name in
  Ok (str_title (str_strip name)).

(* ================================================================= *)
(** ** JSON values and the methods called on them *)

(** What [r.json()] returns.  A number is an integer here; a float behaves,
    for all the script does with it, like an integer that is zero or not. *)
#[warnings="-register-all"] Inductive json : Type :=
  | JNull
  | JBool (b : bool)
  | JNum (n : Z)
  | JStr (s : string)
  | JList (items : list json)
  | JDict (items : list (string * json)).

Fixpoint lookup (key : string) (items : list (string * json)) : option json :=
  match items with
  | [] => None
  | (k, v) :: items' => if String.eqb k key then Some v else lookup key items'
  end.

(** Truth value of a Python object. *)
Definition truthy (v : json) : bool :=
  match v with
  | JNull => false
  | JBool b => b
  | JNum n => negb (n =? 0)%Z
  | JStr s => negb (String.eqb s "")
  | JList items => match items with [] => false | _ => true end
  | JDict items => match items with [] => false | _ => true end
  end.

(** [data.get(key)]: only a dict has the method. *)
Definition py_get (data : json) (key : string) : result json :=
  match data with
  | JDict items =>
      match lookup key items with
      | Some v => Ok v
      | None => Ok JNull
      end
  | _ => Raise AttributeError
  end.

(** [data[key]] with a string key. *)
Definition py_getitem (data : json) (key : string) : result json :=
  match data with
  | JDict items =>
      match lookup key items with
      | Some v => Ok v
      | None => Raise KeyError
      end
  | _ => Raise TypeError
  end.

(** [v.split(sep)[0]]: only a str has the method. *)
Definition py_split_first (v : json) (sep : ascii) : result string :=
  match v with
  | JStr s =>
      match str_split sep s with
      | first :: _ => Ok first
      | [] => Raise IndexError
      end
  | _ => Raise AttributeError
  end.

(* ================================================================= *)
(** ** HTTP requests *)

Inductive param : Type :=
  | PStr (s : string)
  | PInt (n : Z).

(** The arguments of one [requests.get] call; [None] is an argument that
    the call does not pass. *)
Record request : Type := {
  url : string;
  params : option (list (string * param));
  headers : option (list (string * string));
  timeout : option Z
}.

Record response : Type := {
  status_code : Z;
  json_body : result json      (* what [r.json()] does *)
}.

(** The remote side: the outcome of a request, given the requests made
    before it. *)
Definition oracle : Type := list request -> request -> result response.

(** Computations that may raise and that record the requests they make. *)
Definition M (A : Type) : Type := list request -> result A * list request.

Definition ret {A} (a : A) : M A := fun log => (Ok a, log).

Definition bind {A B} (x : M A) (f : A -> M B) : M B :=
  fun log =>
    match x log with
    | (Ok a, log') => f a log'
    | (Raise e, log') => (Raise e, log')
    end.

Definition lift {A} (x : result A) : M A := fun log => (x, log).

(** [try: body / except Exception: pass], where [body] either returns from
    the function ([Some]) or runs to its end. *)
Definition try_except_pass {A} (body : M (option A)) : M (option A) :=
  fun log =>
    match body log with
    | (Ok v, log') => (Ok v, log')
    | (Raise _, log') => (Ok None, log')
    end.

Notation "x <- e ;; k" := (bind e (fun x => k))
  (at level 61, e at next level, right associativity).

Section Network.

Variable remote : oracle.

Definition requests_get (req : request) : M response :=
  fun log => (remote log req, (log ++ [req])%list).

(* ================================================================= *)
(** ** Tool function lookup *)

Definition wiki_request (tool_name : string) : request :=
  {| url := "https://en.wikipedia.org/api/rest_v1/page/summary/"
              ++ str_replace " " "_" tool_name;
     params := None;
     headers := Some HEADERS;
     timeout := Some 5%Z |}.

Definition ddg_request (tool_name : string) : request :=
  {| url := "https://api.duckduckgo.com/";
     params := Some [("q", PStr tool_name); ("format", PStr "json");
                     ("no_redirect", PInt 1); ("no_html", PInt 1)];
     headers := None;
     timeout := Some 5%Z |}.

(** Lines 58-63. *)
Definition wiki_lookup (tool_name : string) : M (option string) :=
  r <- requests_get (wiki_request tool_name) ;;
  if (status_code r =? 200)%Z then
    data <- lift (json_body r) ;;
    extract <- lift (py_get data "extract") ;;
    if truthy extract then
      extract <- lift (py_getitem data "extract") ;;
      first <- lift (py_split_first extract ".") ;;
      ret (Some first)
    else ret None
  else ret None.

(** Lines 69-82. *)
Definition ddg_lookup (tool_name : string) : M (option string) :=
  r <- requests_get (ddg_request tool_name) ;;
  data <- lift (json_body r) ;;
  abstract <- lift (py_get data "AbstractText") ;;
  if truthy abstract then
    abstract <- lift (py_getitem data "AbstractText") ;;
    first <- lift (py_split_first abstract ".") ;;
    ret (Some first)
  else ret None.

Definition FALLBACK : string := "Windows utility tool".

Definition query_tool_function (tool_name : string) : M string :=
  found <- try_except_pass (wiki_lookup tool_name) ;;
  match found with
  | Some text => ret text
  | None =>
      found <- try_except_pass (ddg_lookup tool_name) ;;
      match found with
      | Some text => ret text
      | None => ret FALLBACK
      end
  end.

End Network.

(* ================================================================= *)
(** ** Markdown generation *)

Definition TABLE_HEADER : string := "| Name | Function |".
Definition TABLE_RULE : string := "| ---- | -------- |".

Definition table_row (tool : string * string) : string :=
  let '(name, function) := tool in
  "| " ++ name ++ " | " ++ function ++ " |".

Definition build_markdown_table (tools : list (string * string)) : string :=
  let lines := ([TABLE_HEADER; TABLE_RULE] ++ map table_row tools)%list in
  str_join nl lines.

(* ================================================================= *)
(** ** Markdown update logic *)

(** [\| Name \| Function \|[\s\S]*?$] *)
Definition table_re : Re.regex :=
  Re.Cat (Re.Word TABLE_HEADER)
    (Re.Cat (Re.Star false (Re.In Re.any_char)) Re.Eol).

(** The content [update_markdown_file] computes from the state of the
    target ([None]: no such file; otherwise the text [read_text] returns,
    which is the stored text when that is valid UTF-8 without carriage
    return). *)
Definition updated_content (target : option string) (table_content : string)
    : result string :=
  match target with
  | Some original_content =>
      if str_contains TABLE_HEADER original_content then
        ReSub.sub Re.MULTILINE table_re table_content original_content
      else
        Ok (original_content ++ nl ++ nl ++ table_content)
  | None => Ok table_content
  end.

(** The state of the target after the call; the write is the last statement,
    so an exception leaves the target as it was. *)
Definition update_markdown_file (target : option string) (table_content : string)
    : result (option string) :=
  let? updated := updated_content target table_content in
  Ok (Some updated).

(* ================================================================= *)
(** ** Main execution *)

(** An entry of the script's directory. *)
Record dir_entry : Type := {
  entry_name : string;
  is_file : bool
}.

Definition supported (item : dir_entry) : bool :=
  is_file item &&
  existsb (String.eqb (str_lower (name_suffix (entry_name item))))
          SUPPORTED_EXTENSIONS.

(** [list.sort(key=...)]: a stable sort that compares keys with [<]. *)
Fixpoint insert_by {A} (key : A -> string) (x : A) (sorted : list A) : list A :=
  match sorted with
  | [] => [x]
  | y :: rest =>
      if String.ltb (key x) (key y) then x :: y :: rest
      else y :: insert_by key x rest
  end.

Definition sort_by {A} (key : A -> string) (l : list A) : list A :=
  fold_left (fun sorted x => insert_by key x sorted) l [].

Section Run.

Variable remote : oracle.

(** Lines 146-152: the loop over the directory, in the order [iterdir]
    yields the entries. *)
Fixpoint collect (items : list dir_entry) (collected_tools : list (string * string))
    : M (list (string * string)) :=
  match items with
  | [] => ret collected_tools
  | item :: items' =>
      if supported item then
        tool_name <- lift (normalize_tool_name (entry_name item)) ;;
        function <- query_tool_function remote tool_name ;;
        collect items' (collected_tools ++ [(tool_name, function)])%list
      else collect items' collected_tools
  end.

(** Lines 146-157: the table of a run. *)
Definition markdown_table (items : list dir_entry) : M string :=
  collected_tools <- collect items [] ;;
  let sorted := sort_by (fun x => str_lower (fst x)) collected_tools in
  ret (build_markdown_table sorted).

(** The state of the target document after a run over the directory
    [items]; the two lines printed at the end are not modelled. *)
Definition main (items : list dir_entry) (target : option string)
    : M (option string) :=
  table <- markdown_table items ;;
  lift (update_markdown_file target table).

End Run.

(* ================================================================= *)
(** ** Vocabulary of the properties *)

(** The text before the first [sep]. *)
Fixpoint before_first (sep : ascii) (s : string) : string :=
  match s with
  | "" => ""
  | String c s' => if Ascii.eqb c sep then "" else String c (before_first sep s')
  end.

(** A lookup raises: [requests.get] raises (time-out, connection error), or
    decoding the body raises where the script decodes it. *)
Definition json_raises (r : response) : bool :=
  match json_body r with
  | Raise _ => true
  | Ok _ => false
  end.

Definition wiki_raises (outcome : result response) : bool :=
  match outcome with
  | Raise _ => true
  | Ok r => (status_code r =? 200)%Z && json_raises r
  end.

Definition ddg_raises (outcome : result response) : bool :=
  match outcome with
  | Raise _ => true
  | Ok r => json_raises r
  end.

(** The fixed user agent is among the headers a request passes. *)
Definition sends_user_agent (req : request) : bool :=
  match headers req with
  | Some hs =>
      existsb (fun h => String.eqb (fst h) "User-Agent"
                        && String.eqb (snd h) "WinToolsTableGenerator/1.0") hs
  | None => false
  end.

(** Title case: a letter is upper case exactly when no letter precedes it. *)
Fixpoint title_cased_from (previous_is_cased : bool) (s : string) : bool :=
  match s with
  | "" => true
  | String c s' =>
      (if previous_is_cased then negb (Char.isupper c) else negb (Char.islower c))
      && title_cased_from (Char.iscased c) s'
  end.

Definition is_title_cased (s : string) : bool := title_cased_from false s.

Definition has_digit (s : string) : bool := str_existsb Char.isdigit s.

Definition ARCH_TOKENS : list string := ["x64"; "x86"; "win32"; "win64"].

(** Some architecture token occurs in [s], in any letter case. *)
Definition has_arch_token (s : string) : bool :=
  existsb (fun token => str_contains token (str_lower s)) ARCH_TOKENS.

(** Position of a line in a text, and the order of two lines. *)
Fixpoint index_of (line : string) (lines : list string) : option nat :=
  match lines with
  | [] => None
  | l :: lines' =>
      if String.eqb l line then Some 0
      else option_map S (index_of line lines')
  end.

Definition row_before (a b table : string) : bool :=
  let lines := str_split Char.newline table in
  match index_of a lines, index_of b lines with
  | Some i, Some j => (i <? j)%nat
  | _, _ => false
  end.

(** No backslash: [re.sub] inserts such a replacement text as it is. *)
Definition no_backslash (s : string) : bool :=
  negb (str_existsb (fun c => Ascii.eqb c Char.backslash) s).

(** The state of the target has the table header at most once. *)
Definition at_most_one_header (target : option string) : Prop :=
  match target with
  | Some original_content => occurrences TABLE_HEADER original_content <= 1
  | None => True
  end.

(** The part of a text from its first newline on. *)
Fixpoint line_end (s : string) : string :=
  match s with
  | "" => ""
  | String c s' => if Ascii.eqb c Char.newline then s else line_end s'
  end.

(** *** Used in the proofs *)

(** The least number of characters a match of [r] consumes. *)
Fixpoint min_len (r : Re.regex) : nat :=
  match r with
  | Re.Eps | Re.Eol | Re.Star _ _ => 0
  | Re.Lit _ | Re.In _ => 1
  | Re.Cat r1 r2 => min_len r1 + min_len r2
  | Re.Alt r1 r2 => Nat.min (min_len r1) (min_len r2)
  end.

(** Whatever the matcher answers, the continuation answered it on a suffix
    of the text, after at least [min_len r] characters. *)
Definition sound_at (body : string -> (string -> option string) -> option string)
    (least : nat) : Prop :=
  forall s k x, body s k = Some x ->
    exists p s', s = p ++ s' /\ least <= String.length p /\ k s' = Some x.

(** Two continuations that agree on the texts of at most [n] characters. *)
Definition agree_upto (n : nat) (k1 k2 : string -> option string) : Prop :=
  forall s', String.length s' <= n -> k1 s' = k2 s'.

(** Fuel that lets a scan of [s] reach the end of [s]: a step either
    consumes a character or follows an empty match. *)
Definition enough (fuel : nat) (must_advance : bool) (s : string) : Prop :=
  2 * String.length s + (if must_advance then 1 else 2) <= fuel.

(** Pieces of a scan. *)
Definition pieces_all (Q : ascii -> bool) (x : list (string * string) * string)
    : bool :=
  forallb (fun gm => str_forallb Q (fst gm)) (fst x) && str_forallb Q (snd x).

Definition not_digit (c : ascii) : bool := negb (Char.isdigit c).

Definition not_newline (c : ascii) : bool := negb (Ascii.eqb c Char.newline).

(** A text that is empty or starts a new line. *)
Definition barrier (t : string) : bool :=
  match t with
  | "" => true
  | String c _ => Ascii.eqb c Char.newline
  end.

(** The text [re.sub] builds from the pieces of a scan. *)
Definition render (pieces : list Template.piece)
    (x : list (string * string) * string) : string :=
  ReSub.substitute pieces (fst x) (snd x).

(** What [re.sub] with the table pattern makes of [s] when every match
    expands to the text of [pieces]. *)
Definition replaced (pieces : list Template.piece) (fuel : nat) (adv : bool)
    (s : string) : string :=
  render pieces (Re.scan fuel Re.MULTILINE table_re adv s).

(* ================================================================= *)
(** ** Concrete inputs used below *)

Definition offline : oracle := fun _ _ => Raise ConnectionError.

(** The first service is down; the second answers with status 500 and a
    body that carries an abstract. *)
Definition error_page_with_abstract : oracle :=
  fun _ req =>
    match params req with
    | None => Raise ConnectionError
    | Some _ =>
        Ok {| status_code := 500;
              json_body := Ok (JDict [("AbstractText",
                                       JStr "Cached answer. Stale.")]) |}
    end.

(** The first service answers; the second is down. *)
Definition wiki_only : oracle :=
  fun _ req =>
    match params req with
    | None =>
        Ok {| status_code := 200;
              json_body := Ok (JDict [("title", JStr "7-Zip");
                                      ("extract",
                                       JStr "7-Zip is a file archiver. It is free.")]) |}
    | Some _ => Raise Timeout
    end.

Definition appone_exe : dir_entry :=
  {| entry_name := "AppOne_x64.exe"; is_file := true |}.
Definition appzero_zip : dir_entry :=
  {| entry_name := "appzero.zip"; is_file := true |}.

Definition appone_row : string := "| Appone | Windows utility tool |".
Definition appzero_row : string := "| Appzero | Windows utility tool |".

Definition two_tools_table : string :=
  TABLE_HEADER ++ nl ++ TABLE_RULE ++ nl ++ appone_row ++ nl ++ appzero_row.

(** A document with an introduction and an earlier table of one row. *)
Definition old_document : string :=
  "# Tools" ++ nl ++ nl ++
  TABLE_HEADER ++ nl ++ TABLE_RULE ++ nl ++ "| Old | gone |".

Definition new_table : string := build_markdown_table [("New", "fresh")].

(** A directory without any archive or installer: two plain files and a
    sub-directory whose name ends like an archive. *)
Definition no_tools_dir : list dir_entry :=
  [ {| entry_name := "PyUpdateTrackTools.py"; is_file := true |};
    {| entry_name := "notes.txt"; is_file := true |};
    {| entry_name := "backup.zip"; is_file := false |} ].

(* ================================================================= *)
(** ** Vocabulary of the further properties *)

(** What a lookup makes of the outcome of its request: the text before the
    first period of [field], when the request returned, the status is 200
    where the lookup asks for it, the body decodes to a dict, and the field
    is a non-empty text. *)
Definition usable_text (field : string) (needs_200 : bool)
    (outcome : result response) : option string :=
  match outcome with
  | Raise _ => None
  | Ok r =>
      if needs_200 && negb (status_code r =? 200)%Z then None
      else
        match json_body r with
        | Ok (JDict items) =>
            match lookup field items with
            | Some (JStr text) =>
                if String.eqb text "" then None
                else Some (before_first "." text)
            | _ => None
            end
        | _ => None
        end
  end.

Definition has_period (s : string) : bool :=
  str_existsb (fun c => Ascii.eqb c ".") s.

(** The order of two sort keys: [a] is not after [b]. *)
Definition key_le (a b : string) : Prop := String.ltb b a = false.

Definition le_by {A} (key : A -> string) (x y : A) : Prop :=
  key_le (key x) (key y).

(** The entries whose key is [k]. *)
Definition with_key {A} (key : A -> string) (k : string) (x : A) : bool :=
  String.eqb (key x) k.

(** A text without newline. *)
Definition one_line (s : string) : bool := str_forallb not_newline s.

Definition one_line_fields (tool : string * string) : bool :=
  one_line (fst tool) && one_line (snd tool).

(** [re.sub] of the table pattern over [s], each match replaced by the
    expansion of [pieces]. *)
Definition sub_table (pieces : list Template.piece) (s : string) : string :=
  render pieces (Re.finditer Re.MULTILINE table_re s).

(** The text before the first occurrence of [p] (all of [s] when there is
    none). *)
Fixpoint text_before (p s : string) : string :=
  if startswith p s then ""
  else match s with
       | "" => ""
       | String c s' => String c (text_before p s')
       end.

(** The text from the end of the line on which [p] first occurs. *)
Fixpoint after_first_line (p s : string) : string :=
  if startswith p s then line_end (str_drop (String.length p) s)
  else match s with
       | "" => ""
       | String _ s' => after_first_line p s'
       end.

(** A backslash in front of [c] is an escape that [re.sub] refuses: [c] is
    an ASCII letter that names neither a control character nor a group. *)
Definition bad_escape (c : ascii) : bool :=
  Char.isalpha c && negb (Ascii.eqb c "g")
  && match Template.escapes c with Some _ => false | None => true end.

(** The display name of a file: what [normalize_tool_name] returns. *)
Definition display_name (filename : string) : string :=
  match normalize_tool_name filename with
  | Ok name => name
  | Raise _ => ""
  end.

(** The target exists and holds the table header. *)
Definition has_header (target : option string) : bool :=
  match target with
  | Some original_content => str_contains TABLE_HEADER original_content
  | None => false
  end.

(** What is in front of the table in a target without header. *)
Definition kept_text (target : option string) : string :=
  match target with
  | Some original_content => original_content ++ nl ++ nl
  | None => ""
  end.

Definition sort_key (tool : string * string) : string := str_lower (fst tool).

(** The characters the normalizer cuts at or turns into spaces. *)
Definition is_cut (c : ascii) : bool :=
  Ascii.eqb c "_" || Ascii.eqb c "-" || Ascii.eqb c "(".

Definition is_joint (c : ascii) : bool :=
  Ascii.eqb c "." || Ascii.eqb c "_" || Ascii.eqb c "-".

Definition is_separator (c : ascii) : bool := is_cut c || is_joint c.

Definition has_separator (s : string) : bool := str_existsb is_separator s.

Definition not_cut (c : ascii) : bool := negb (is_cut c).
Definition not_joint (c : ascii) : bool := negb (is_joint c).
Definition not_separator (c : ascii) : bool := negb (is_separator c).

(** No white space at the start, none at the end. *)
Definition starts_clean (s : string) : bool :=
  match s with
  | "" => true
  | String c _ => negb (Char.isspace c)
  end.

Fixpoint ends_clean (s : string) : bool :=
  match s with
  | "" => true
  | String c s' =>
      match s' with
      | "" => negb (Char.isspace c)
      | String _ _ => ends_clean s'
      end
  end.

Definition not_slash (c : ascii) : bool := negb (Ascii.eqb c "/").
Definition not_period (c : ascii) : bool := negb (Ascii.eqb c ".").

(** The characters a display name of an ASCII file name is made of. *)
Definition plain (c : ascii) : bool :=
  Char.is_ascii c && not_digit c && not_separator c && not_slash c.

(** The ranges in which the bytes after a first byte of a UTF-8 sequence
    must lie (well-formed sequences only: no over-long form, no surrogate,
    nothing above U+10FFFF); [None] for a byte that starts no sequence. *)
Definition utf8_tail (first : ascii) : option (list (N * N)) :=
  if Char.is_ascii first then Some []
  else if Char.between 194 223 first then Some [(128, 191)]%N
  else if Char.between 224 224 first then Some [(160, 191); (128, 191)]%N
  else if Char.between 225 236 first || Char.between 238 239 first
  then Some [(128, 191); (128, 191)]%N
  else if Char.between 237 237 first then Some [(128, 159); (128, 191)]%N
  else if Char.between 240 240 first
  then Some [(144, 191); (128, 191); (128, 191)]%N
  else if Char.between 241 243 first
  then Some [(128, 191); (128, 191); (128, 191)]%N
  else if Char.between 244 244 first
  then Some [(128, 143); (128, 191); (128, 191)]%N
  else None.

Fixpoint valid_utf8_from (expected : list (N * N)) (s : string) : bool :=
  match s with
  | "" => match expected with [] => true | _ :: _ => false end
  | String c s' =>
      match expected with
      | [] =>
          match utf8_tail c with
          | Some tail => valid_utf8_from tail s'
          | None => false
          end
      | (lo, hi) :: rest => Char.between lo hi c && valid_utf8_from rest s'
      end
  end.

(** The bytes the strict UTF-8 decoder accepts. *)
Definition valid_utf8 (s : string) : bool := valid_utf8_from [] s.

Definition not_carriage_return (c : ascii) : bool :=
  negb (Ascii.eqb c (ascii_of_N 13)).

(** A stored document that [Path.read_text] with the UTF-8 encoding returns
    as it is stored: its bytes decode, and it has no carriage return for the
    universal-newline reading to turn into a newline. *)
Definition read_verbatim (stored : string) : bool :=
  valid_utf8 stored && str_forallb not_carriage_return stored.

(** The same of a target; nothing is read of a target that does not
    exist. *)
Definition target_read_verbatim (target : option string) : bool :=
  match target with
  | Some original_content => read_verbatim original_content
  | None => true
  end.

(** The supported entries of a directory have ASCII names. *)
Definition ascii_names (items : list dir_entry) : bool :=
  forallb (fun item => is_ascii (entry_name item)) (filter supported items).

(** The requests one call of [query_tool_function] for a tool makes: the
    encyclopedia request, alone or followed by the instant-answer request. *)
Definition lookups_of (tool : string * string) (reqs : list request) : Prop :=
  reqs = [wiki_request (fst tool)]
  \/ reqs = [wiki_request (fst tool); ddg_request (fst tool)].

(** A file name with the capital I with dot above, U+0130, between two
    letters, and the name the normalizer gives it: the lower case of U+0130
    is the letter i followed by the combining dot above, U+0307. *)
Definition dotted_name : string := "a" ++ utf8_pair 196 176 ++ "b_x64_v1.0.zip".
Definition dotted_display : string := "Ai" ++ utf8_pair 204 135 ++ "b".

(* ================================================================= *)
(** * Properties *)

(* ================================================================= *)
(** ** Text *)

Lemma append_nil_r (s : string) : s ++ "" = s.
Proof. induction s; simpl; congruence. Qed.

Lemma append_assoc (a b c : string) : (a ++ b) ++ c = a ++ (b ++ c).
Proof. induction a; simpl; congruence. Qed.

Lemma length_append (a b : string) :
  String.length (a ++ b) = String.length a + String.length b.
Proof. induction a; simpl; congruence. Qed.

Lemma take_length_append (p s : string) :
  str_take (String.length p) (p ++ s) = p.
Proof. induction p; simpl; [now destruct s | congruence]. Qed.

Lemma forallb_append (Q : ascii -> bool) (a b : string) :
  str_forallb Q (a ++ b) = str_forallb Q a && str_forallb Q b.
Proof.
  induction a as [|c a IH]; simpl; [reflexivity|].
  now rewrite IH, andb_assoc.
Qed.

Lemma existsb_forallb (Q : ascii -> bool) (s : string) :
  str_existsb Q s = negb (str_forallb (fun c => negb (Q c)) s).
Proof.
  induction s as [|c s IH]; simpl; [reflexivity|].
  rewrite IH. now destruct (Q c).
Qed.

(* ================================================================= *)
(** ** The matcher *)

Module ReFacts.
Import Re.

Lemma star_loop_sound body greedy (Hbody : sound_at body 0) :
  forall n, sound_at (fun s k => star_loop body greedy k n s) 0.
Proof.
  intros n. induction n as [|n IH]; intros s k x H.
  - exists "", s. simpl in *. auto with arith.
  - simpl in H.
    assert (Hmore : forall y,
      body s (fun s' => if (String.length s' <? String.length s)%nat
                        then star_loop body greedy k n s' else None) = Some y ->
      exists p s', s = p ++ s' /\ 0 <= String.length p /\ k s' = Some y).
    { intros y Hy. apply Hbody in Hy as (p1 & s1 & -> & _ & Hy).
      destruct (String.length s1 <? String.length (p1 ++ s1))%nat; [|discriminate].
      apply IH in Hy as (p2 & s2 & -> & _ & Hy).
      exists (p1 ++ p2), s2. rewrite append_assoc. auto with arith. }
    destruct greedy.
    + destruct (body s _) as [y|] eqn:E.
      * inversion H; subst. now apply Hmore.
      * exists "", s. auto with arith.
    + destruct (k s) as [y|] eqn:E.
      * inversion H; subst. exists "", s. auto with arith.
      * now apply Hmore.
Qed.

Lemma mt_sound (fl : flags) (r : regex) : sound_at (mt fl r) (min_len r).
Proof.
  induction r as [|c|p|r1 IH1 r2 IH2|r1 IH1 r2 IH2|g r1 IH1|];
    intros s k x H; simpl in H.
  - exists "", s. simpl. auto.
  - destruct s as [|a s]; [discriminate|].
    destruct (lit_matches fl c a); [|discriminate].
    exists (String a ""), s. simpl. auto.
  - destruct s as [|a s]; [discriminate|].
    destruct (in_matches fl p a); [|discriminate].
    exists (String a ""), s. simpl. auto.
  - apply IH1 in H as (p1 & s1 & -> & L1 & H).
    apply IH2 in H as (p2 & s2 & -> & L2 & H).
    exists (p1 ++ p2), s2. rewrite append_assoc, length_append.
    simpl. repeat split; [lia | assumption].
  - simpl. destruct (mt fl r1 s k) as [y|] eqn:E.
    + inversion H; subst. apply IH1 in E as (p1 & s1 & -> & L1 & E).
      exists p1, s1. repeat split; [lia | assumption].
    + apply IH2 in H as (p2 & s2 & -> & L2 & H).
      exists p2, s2. repeat split; [lia | assumption].
  - assert (Hbody : sound_at (mt fl r1) 0).
    { intros s0 k0 x0 H0. apply IH1 in H0 as (p1 & s1 & -> & _ & H0).
      exists p1, s1. auto with arith. }
    exact (star_loop_sound _ g Hbody _ s k x H).
  - destruct (at_eol fl s); [|discriminate]. exists "", s. simpl. auto.
Qed.

(** A match is a prefix of the text, followed by the rest. *)
Lemma match_at_sound (fl : flags) (r : regex) (adv : bool) (s rest : string) :
  match_at fl r adv s = Some rest ->
  exists m, s = m ++ rest /\ min_len r <= String.length m.
Proof.
  unfold match_at. intros H. apply mt_sound in H as (p & s' & -> & L & H).
  destruct (adv && _); [discriminate|]. inversion H; subst. now exists p.
Qed.

(** A star can always stop where the continuation goes on. *)
Lemma star_loop_total body greedy k n s :
  k s <> None -> star_loop body greedy k n s <> None.
Proof.
  intros H. destruct n as [|n]; simpl; [assumption|].
  destruct greedy.
  - destruct (body s _); [discriminate | assumption].
  - destruct (k s); [discriminate | contradiction].
Qed.

(** A word, with letter case respected. *)
Lemma mt_word (fl : flags) (w s : string) (k : string -> option string) :
  ignorecase fl = false ->
  mt fl (Word w) s k
  = if startswith w s then k (str_drop (String.length w) s) else None.
Proof.
  intros Hfl. revert s. induction w as [|c w IH]; intros s; simpl.
  - now destruct s.
  - destruct s as [|a s]; [reflexivity|].
    unfold lit_matches. rewrite Hfl.
    destruct (Ascii.eqb c a); simpl; [apply IH | reflexivity].
Qed.

Lemma pieces_all_push (Q : ascii -> bool) (c : ascii) x :
  Q c = true -> pieces_all Q x = true -> pieces_all Q (push_char c x) = true.
Proof.
  destruct x as [[|[gap m] ms] tail]; unfold pieces_all; simpl; intros -> H;
    exact H.
Qed.

(** The unmatched pieces are made of characters of the text. *)
Lemma scan_keeps (Q : ascii -> bool) (fl : flags) (r : regex) :
  forall fuel adv s,
    str_forallb Q s = true -> pieces_all Q (scan fuel fl r adv s) = true.
Proof.
  induction fuel as [|fuel IH]; intros adv s Hs; simpl.
  - unfold pieces_all. simpl. exact Hs.
  - destruct (match_at fl r adv s) as [rest|] eqn:E.
    + apply match_at_sound in E as (m & -> & _).
      rewrite forallb_append in Hs. apply andb_prop in Hs as [_ Hrest].
      specialize (IH (String.length
                        (str_take (String.length (m ++ rest) - String.length rest)
                                  (m ++ rest)) =? 0)%nat rest Hrest).
      destruct (scan fuel fl r _ rest) as [ms tail]. exact IH.
    + destruct s as [|c s]; [reflexivity|].
      simpl in Hs. apply andb_prop in Hs as [Hc Hs].
      apply pieces_all_push; auto.
Qed.

(** When every match consumes a character and a match starts at every
    character outside [Q], the unmatched pieces are made of characters
    of [Q]. *)
Lemma scan_leaves (Q : ascii -> bool) (fl : flags) (r : regex) :
  1 <= min_len r ->
  (forall adv c s, match_at fl r adv (String c s) = None -> Q c = true) ->
  forall fuel adv s,
    String.length s < fuel -> pieces_all Q (scan fuel fl r adv s) = true.
Proof.
  intros Hmin Hq. induction fuel as [|fuel IH]; intros adv s Hlen; [lia|].
  simpl. destruct (match_at fl r adv s) as [rest|] eqn:E.
  - apply match_at_sound in E as (m & -> & L).
    rewrite length_append in Hlen.
    assert (Hrest : String.length rest < fuel) by lia.
    specialize (IH (String.length
                      (str_take (String.length (m ++ rest) - String.length rest)
                                (m ++ rest)) =? 0)%nat rest Hrest).
    destruct (scan fuel fl r _ rest) as [ms tail]. exact IH.
  - destruct s as [|c s]; [reflexivity|].
    simpl in Hlen. apply pieces_all_push; [now apply (Hq adv c s) | apply IH; lia].
Qed.

Lemma substitute_all (Q : ascii -> bool) (pieces : list Template.piece) :
  (forall m, str_forallb Q (Template.expand pieces m) = true) ->
  forall ms tail,
    pieces_all Q (ms, tail) = true ->
    str_forallb Q (ReSub.substitute pieces ms tail) = true.
Proof.
  intros Hexp ms tail. unfold pieces_all. simpl.
  induction ms as [|[gap m] ms IH]; simpl; intros H.
  - exact H.
  - apply andb_prop in H as [H Htail]. apply andb_prop in H as [Hgap Hms].
    rewrite !forallb_append, Hgap, Hexp. simpl. apply IH.
    now rewrite Hms, Htail.
Qed.

Lemma split_first_all (Q : ascii -> bool) ms tail :
  pieces_all Q (ms, tail) = true ->
  str_forallb Q (hd "" (map fst ms ++ [tail])%list) = true.
Proof.
  unfold pieces_all. destruct ms as [|[gap m] ms]; simpl.
  - auto.
  - intros H. apply andb_prop in H as [H _]. now apply andb_prop in H as [H _].
Qed.

(** *** The bound of a star is never reached *)

(** The matcher only asks the continuation about texts that are not longer
    than the one it starts from. *)
Lemma star_loop_ext body greedy
    (Hbody : forall s k1 k2, agree_upto (String.length s) k1 k2 ->
                             body s k1 = body s k2) :
  forall n s k1 k2,
    agree_upto (String.length s) k1 k2 ->
    star_loop body greedy k1 n s = star_loop body greedy k2 n s.
Proof.
  induction n as [|n IH]; intros s k1 k2 Hk; simpl.
  - apply Hk. lia.
  - rewrite (Hk s) by lia.
    rewrite (Hbody s _ (fun s' => if (String.length s' <? String.length s)%nat
                                  then star_loop body greedy k2 n s' else None)).
    + reflexivity.
    + intros s' Hs'. destruct (String.length s' <? String.length s)%nat eqn:E;
        [|reflexivity].
      apply IH. intros u Hu. apply Hk. lia.
Qed.

Lemma mt_ext (fl : flags) (r : regex) :
  forall s k1 k2, agree_upto (String.length s) k1 k2 -> mt fl r s k1 = mt fl r s k2.
Proof.
  induction r as [|c|p|r1 IH1 r2 IH2|r1 IH1 r2 IH2|g r1 IH1|];
    intros s k1 k2 Hk; simpl.
  - apply Hk. lia.
  - destruct s as [|a s]; [reflexivity|].
    destruct (lit_matches fl c a); [|reflexivity]. apply Hk. simpl. lia.
  - destruct s as [|a s]; [reflexivity|].
    destruct (in_matches fl p a); [|reflexivity]. apply Hk. simpl. lia.
  - apply IH1. intros s' Hs'. apply IH2. intros u Hu. apply Hk. lia.
  - now rewrite (IH1 s k1 k2 Hk), (IH2 s k1 k2 Hk).
  - now apply star_loop_ext.
  - destruct (at_eol fl s); [|reflexivity]. apply Hk. lia.
Qed.

Lemma mt_refused (fl : flags) (r : regex) (s : string)
    (k : string -> option string) :
  (forall s', String.length s' <= String.length s -> k s' = None) ->
  mt fl r s k = None.
Proof.
  intros Hk. destruct (mt fl r s k) as [x|] eqn:E; [|reflexivity].
  apply mt_sound in E as (p & s' & -> & _ & E).
  rewrite Hk in E; [discriminate|]. rewrite length_append. lia.
Qed.

(** As many iterations as the text has characters are as good as any
    larger number. *)
Lemma star_loop_fuel (fl : flags) (r : regex) (greedy : bool)
    (k : string -> option string) :
  forall n1 n2 s,
    String.length s <= n1 -> String.length s <= n2 ->
    star_loop (mt fl r) greedy k n1 s = star_loop (mt fl r) greedy k n2 s.
Proof.
  assert (Hstop : forall n, star_loop (mt fl r) greedy k n "" = k "").
  { intros [|n]; [reflexivity|]. simpl.
    rewrite mt_refused by reflexivity. now destruct greedy, (k ""). }
  induction n1 as [|n1 IH]; intros n2 s H1 H2.
  - destruct s; [|simpl in H1; lia]. now rewrite !Hstop.
  - destruct n2 as [|n2].
    + destruct s; [|simpl in H2; lia]. now rewrite !Hstop.
    + simpl.
      rewrite (mt_ext fl r s _
                 (fun s' => if (String.length s' <? String.length s)%nat
                            then star_loop (mt fl r) greedy k n2 s' else None)).
      * reflexivity.
      * intros s' Hs'. destruct (String.length s' <? String.length s)%nat eqn:E;
          [|reflexivity].
        apply Nat.ltb_lt in E. apply IH; lia.
Qed.

(** *** The fuel of a scan is never used up *)

Lemma match_at_advances (fl : flags) (r : regex) (s rest : string) :
  match_at fl r true s = Some rest -> String.length rest < String.length s.
Proof.
  unfold match_at. intros H. apply mt_sound in H as (p & s' & -> & _ & H).
  simpl in H. destruct (String.length s' =? String.length (p ++ s'))%nat eqn:E;
    [discriminate|].
  injection H as <-. apply Nat.eqb_neq in E. rewrite length_append in *. lia.
Qed.

Lemma scan_fuel (fl : flags) (r : regex) :
  forall f1 f2 adv s,
    enough f1 adv s -> enough f2 adv s ->
    scan f1 fl r adv s = scan f2 fl r adv s.
Proof.
  unfold enough.
  induction f1 as [|f1 IH]; intros f2 adv s H1 H2; [destruct adv; lia|].
  destruct f2 as [|f2]; [destruct adv; lia|].
  cbn [scan]. destruct (match_at fl r adv s) as [rest|] eqn:E.
  - assert (Hadv : adv = true -> String.length rest < String.length s).
    { intros ->. now apply match_at_advances in E. }
    apply match_at_sound in E as (m & -> & _).
    rewrite length_append in *.
    replace (String.length m + String.length rest - String.length rest)
      with (String.length m) by lia.
    rewrite take_length_append.
    rewrite (IH f2 (String.length m =? 0)%nat rest); [reflexivity | |].
    + destruct (String.length m =? 0)%nat eqn:Em.
      * apply Nat.eqb_eq in Em. destruct adv; [specialize (Hadv eq_refl)|]; lia.
      * apply Nat.eqb_neq in Em. destruct adv; lia.
    + destruct (String.length m =? 0)%nat eqn:Em.
      * apply Nat.eqb_eq in Em. destruct adv; [specialize (Hadv eq_refl)|]; lia.
      * apply Nat.eqb_neq in Em. destruct adv; lia.
  - destruct s as [|c s]; [reflexivity|]. simpl in H1, H2.
    rewrite (IH f2 false s); [reflexivity | destruct adv; lia | destruct adv; lia].
Qed.

(** More fuel than [finditer] gives changes nothing. *)
Lemma finditer_fuel (fl : flags) (r : regex) (s : string) (fuel : nat) :
  2 * String.length s + 2 <= fuel ->
  scan fuel fl r false s = finditer fl r s.
Proof.
  intros H. unfold finditer. apply scan_fuel; unfold enough; lia.
Qed.

(** [re.split] never returns the empty list. *)
Lemma split_not_nil (fl : flags) (r : regex) (s : string) : split fl r s <> [].
Proof.
  unfold split. destruct (finditer fl r s) as [ms tail].
  now destruct ms.
Qed.

(** *** The fuel of the template parser is never used up *)

Lemma getuntil_shorter (terminator : ascii) (s name rest : string) :
  Template.getuntil terminator s = Some (name, rest) ->
  String.length rest < String.length s.
Proof.
  revert name. induction s as [|c s IH]; intros name; simpl; [discriminate|].
  destruct (Ascii.eqb c terminator).
  - intros [= <- <-]. lia.
  - destruct (Template.getuntil terminator s) as [[n r0]|]; [|discriminate].
    intros [= <- <-]. specialize (IH n eq_refl). lia.
Qed.

Lemma parse_fuel :
  forall f1 f2 t,
    String.length t < f1 -> String.length t < f2 ->
    Template.parse f1 t = Template.parse f2 t.
Proof.
  induction f1 as [|f1 IH]; intros f2 t H1 H2; [lia|].
  destruct f2 as [|f2]; [lia|].
  destruct t as [|c t]; [reflexivity|].
  cbn [Template.parse].
  repeat match goal with
  | |- context [match ?x with _ => _ end] =>
      lazymatch x with
      | Template.parse _ _ => fail
      | _ => destruct x eqn:?
      end
  end;
  try reflexivity;
  repeat match goal with
  | H : Template.getuntil _ _ = Some _ |- _ => apply getuntil_shorter in H
  end;
  subst; simpl in *;
  match goal with
  | |- _ _ (Template.parse _ ?u) = _ _ (Template.parse ?b ?u) =>
      rewrite (IH b u) by (simpl; lia); reflexivity
  end.
Qed.

Lemma parse_template_fuel (repl : string) (fuel : nat) :
  String.length repl < fuel ->
  Template.parse fuel repl = Template.parse_template repl.
Proof.
  intros H. unfold Template.parse_template. apply parse_fuel; lia.
Qed.

End ReFacts.

(* ================================================================= *)
(** ** Characters and case *)

Module CharFacts.
Import Char.

Ltac each_char c :=
  destruct c as [[|] [|] [|] [|] [|] [|] [|] [|]]; vm_compute; try reflexivity;
  try discriminate.

Lemma isdigit_lower c : isdigit (lower c) = isdigit c.
Proof. each_char c. Qed.

Lemma isdigit_upper c : isdigit (upper c) = isdigit c.
Proof. each_char c. Qed.

Lemma isupper_lower c : isupper (lower c) = false.
Proof. each_char c. Qed.

Lemma islower_upper c : islower (upper c) = false.
Proof. each_char c. Qed.

Lemma iscased_lower c : iscased (lower c) = iscased c.
Proof. each_char c. Qed.

Lemma iscased_upper c : iscased (upper c) = iscased c.
Proof. each_char c. Qed.

Lemma is_ascii_lower c : Char.is_ascii (Char.lower c) = Char.is_ascii c.
Proof. each_char c. Qed.

Lemma is_ascii_upper c : Char.is_ascii (Char.upper c) = Char.is_ascii c.
Proof. each_char c. Qed.

End CharFacts.

Lemma title_from_cased (s : string) :
  forall b, title_cased_from b (title_from b s) = true.
Proof.
  induction s as [|c s IH]; intros b; simpl; [reflexivity|].
  destruct b.
  - now rewrite CharFacts.isupper_lower, CharFacts.iscased_lower, IH.
  - now rewrite CharFacts.islower_upper, CharFacts.iscased_upper, IH.
Qed.

(** A text in title case is its own title-casing. *)
Lemma title_cased_fixed (s : string) :
  forall b, title_cased_from b s = true -> title_from b s = s.
Proof.
  induction s as [|c s IH]; intros b H; simpl in *; [reflexivity|].
  apply andb_prop in H as [Hc Hs]. rewrite (IH _ Hs). f_equal.
  destruct b.
  - unfold Char.lower. now destruct (Char.isupper c).
  - unfold Char.upper. now destruct (Char.islower c).
Qed.

Lemma title_from_no_digit (s : string) :
  forall b, str_forallb not_digit s = true ->
            str_forallb not_digit (title_from b s) = true.
Proof.
  unfold not_digit.
  induction s as [|c s IH]; intros b H; simpl in *; [reflexivity|].
  apply andb_prop in H as [Hc Hs]. rewrite (IH _ Hs), andb_true_r.
  destruct b; [rewrite CharFacts.isdigit_lower | rewrite CharFacts.isdigit_upper];
    exact Hc.
Qed.

(** Title-casing keeps what case does not change. *)
Lemma title_from_keeps (Q : ascii -> bool) :
  (forall c, Q (Char.lower c) = Q c) -> (forall c, Q (Char.upper c) = Q c) ->
  forall s b, str_forallb Q s = true -> str_forallb Q (title_from b s) = true.
Proof.
  intros Hl Hu. induction s as [|c s IH]; intros b H; simpl in *; [reflexivity|].
  apply andb_prop in H as [Hc Hs]. rewrite (IH _ Hs), andb_true_r.
  destruct b; [rewrite Hl | rewrite Hu]; exact Hc.
Qed.

(** On ASCII text the title-casing is the one of [title_from]. *)
Lemma latin_pair_ascii (c d : ascii) :
  Char.is_ascii c = true -> latin_pair c d = None.
Proof.
  intros H. unfold latin_pair.
  replace (Char.between 194 197 c) with false; [reflexivity|].
  revert H. clear. CharFacts.each_char c.
Qed.

Lemma title_utf8_ascii (s : string) :
  forall b, is_ascii s = true -> title_utf8 b s = title_from b s.
Proof.
  unfold is_ascii.
  induction s as [|c s IH]; intros b H; [reflexivity|].
  simpl in H. apply andb_prop in H as [Hc Hs].
  cbn [title_utf8 title_from]. rewrite (IH _ Hs).
  destruct s as [|d rest]; [reflexivity|].
  now rewrite (latin_pair_ascii c d Hc).
Qed.

Lemma str_title_ascii (s : string) :
  is_ascii s = true -> str_title s = title_from false s.
Proof. apply title_utf8_ascii. Qed.

(** *** What the text operations keep *)

Lemma split_keeps (Q : ascii -> bool) (sep : ascii) (s : string) :
  str_forallb Q s = true ->
  forallb (str_forallb Q) (str_split sep s) = true.
Proof.
  induction s as [|c s IH]; simpl; [reflexivity|]. intros H.
  apply andb_prop in H as [Hc Hs]. specialize (IH Hs).
  destruct (Ascii.eqb c sep); [exact IH|].
  destruct (str_split sep s) as [|p ps]; simpl in *; [now rewrite Hc|].
  apply andb_prop in IH as [Hp Hps]. now rewrite Hc, Hp, Hps.
Qed.

Lemma last_keeps (P : string -> bool) (l : list string) (d : string) :
  forallb P l = true -> P d = true -> P (last l d) = true.
Proof.
  induction l as [|x l IH]; intros Hl Hd; [exact Hd|].
  simpl in Hl. apply andb_prop in Hl as [Hx Hl].
  destruct l as [|y l]; [exact Hx|]. now apply IH.
Qed.

Lemma forallb_filter (P : string -> bool) (f : string -> bool) (l : list string) :
  forallb P l = true -> forallb P (filter f l) = true.
Proof.
  induction l as [|x l IH]; simpl; [reflexivity|]. intros H.
  apply andb_prop in H as [Hx Hl].
  destruct (f x); simpl; [now rewrite Hx, IH | now apply IH].
Qed.

Lemma path_name_keeps (Q : ascii -> bool) (p : string) :
  str_forallb Q p = true -> str_forallb Q (path_name p) = true.
Proof.
  intros H. unfold path_name.
  apply last_keeps; [|reflexivity]. now apply forallb_filter, split_keeps.
Qed.

Lemma take_keeps (Q : ascii -> bool) (n : nat) (s : string) :
  str_forallb Q s = true -> str_forallb Q (str_take n s) = true.
Proof.
  revert s. induction n as [|n IH]; intros [|c s]; simpl; auto.
  intros H. apply andb_prop in H as [Hc Hs]. now rewrite Hc, IH.
Qed.

Lemma name_stem_keeps (Q : ascii -> bool) (name : string) :
  str_forallb Q name = true -> str_forallb Q (name_stem name) = true.
Proof.
  intros H. unfold name_stem. destruct (suffix_start name); [|exact H].
  now apply take_keeps.
Qed.

Lemma lstrip_keeps (Q : ascii -> bool) (s : string) :
  str_forallb Q s = true -> str_forallb Q (str_lstrip s) = true.
Proof.
  induction s as [|c s IH]; simpl; [auto|]. intros H.
  destruct (Char.isspace c); [|exact H].
  apply andb_prop in H as [_ H]. auto.
Qed.

Lemma rstrip_keeps (Q : ascii -> bool) (s : string) :
  str_forallb Q s = true -> str_forallb Q (str_rstrip s) = true.
Proof.
  induction s as [|c s IH]; simpl; [auto|]. intros H.
  apply andb_prop in H as [Hc Hs]. specialize (IH Hs).
  destruct (str_rstrip s) as [|d t].
  - destruct (Char.isspace c); simpl; [reflexivity | now rewrite Hc].
  - change (str_forallb Q (String c (String d t)))
      with (Q c && str_forallb Q (String d t)).
    now rewrite Hc, IH.
Qed.

Lemma strip_keeps (Q : ascii -> bool) (s : string) :
  str_forallb Q s = true -> str_forallb Q (str_strip s) = true.
Proof. intros H. unfold str_strip. now apply rstrip_keeps, lstrip_keeps. Qed.

(* ================================================================= *)
(** ** Tool name normalization *)

Module NormalizeFacts.
Import Re ReFacts.

(** A version token starts at every decimal digit. *)
Lemma version_at_digit (adv : bool) (c : ascii) (s : string) :
  Char.isdigit c = true ->
  match_at I version_re adv (String c s) <> None.
Proof.
  intros Hd. unfold match_at, version_re, Opt, Plus.
  remember (Star true (In Char.isdigit)) as digits eqn:Edigits.
  remember (Star true (Cat (Lit ".") (Cat (In Char.isdigit) digits)))
    as groups eqn:Egroups.
  assert (Hgo : mt I (Cat (Cat (In Char.isdigit) digits) groups) (String c s)
                  (fun s' => if adv && (String.length s' =? String.length (String c s))%nat
                             then None else Some s') <> None).
  { simpl. unfold in_matches. simpl. rewrite Hd. simpl. subst digits groups.
    apply (star_loop_total (mt I (In Char.isdigit)) true).
    apply (star_loop_total
             (mt I (Cat (Lit ".") (Cat (In Char.isdigit)
                                       (Star true (In Char.isdigit))))) true).
    replace (String.length s =? S (String.length s))%nat with false
      by (symmetry; apply Nat.eqb_neq; lia).
    rewrite andb_false_r. discriminate. }
  change (mt I (Cat (Alt (Lit "v") Eps) (Cat (Cat (In Char.isdigit) digits) groups))
             (String c s) ?k)
    with (match mt I (Lit "v") (String c s)
                  (fun s' => mt I (Cat (Cat (In Char.isdigit) digits) groups) s' k)
          with
          | Some x => Some x
          | None => mt I (Cat (Cat (In Char.isdigit) digits) groups) (String c s) k
          end).
  destruct (mt I (Lit "v") (String c s) _); [discriminate | exact Hgo].
Qed.

Lemma version_re_leaves_no_digit (adv : bool) (c : ascii) (s : string) :
  match_at I version_re adv (String c s) = None -> not_digit c = true.
Proof.
  intros H. unfold not_digit. destruct (Char.isdigit c) eqn:Hd; [|reflexivity].
  now apply (version_at_digit adv c s) in Hd.
Qed.

Lemma strip_arch_total (name : string) : exists out, strip_arch name = Ok out.
Proof.
  unfold strip_arch, ReSub.sub.
  change (Template.parse_template "") with (Ok (@nil Template.piece)).
  simpl result_bind. destruct (finditer I arch_re name) as [ms tail].
  now eexists.
Qed.

(** After the version tokens are removed no decimal digit is left. *)
Lemma strip_version_no_digit (name : string) :
  exists out, strip_version name = Ok out /\ str_forallb not_digit out = true.
Proof.
  unfold strip_version, ReSub.sub.
  change (Template.parse_template "") with (Ok (@nil Template.piece)).
  simpl result_bind.
  assert (H : pieces_all not_digit (finditer I version_re name) = true).
  { apply scan_leaves.
    - simpl. lia.
    - exact version_re_leaves_no_digit.
    - lia. }
  destruct (finditer I version_re name) as [ms tail].
  eexists. split; [reflexivity|].
  apply substitute_all; [reflexivity | exact H].
Qed.

Lemma truncate_keeps (Q : ascii -> bool) (name : string) :
  str_forallb Q name = true ->
  str_forallb Q (truncate_at_separator name) = true.
Proof.
  intros H. unfold truncate_at_separator, split.
  pose proof (scan_keeps Q no_flags annotation_re
                (2 * String.length name + 2) false name H) as Hs.
  fold (finditer no_flags annotation_re name) in Hs.
  destruct (finditer no_flags annotation_re name) as [ms tail].
  now apply split_first_all.
Qed.

Lemma sub_keeps (Q : ascii -> bool) (fl : flags) (r : regex)
    (repl : string) (pieces : list Template.piece) (s out : string) :
  Template.parse_template repl = Ok pieces ->
  (forall m, str_forallb Q (Template.expand pieces m) = true) ->
  str_forallb Q s = true ->
  ReSub.sub fl r repl s = Ok out ->
  str_forallb Q out = true.
Proof.
  intros Hp He Hs. unfold ReSub.sub. rewrite Hp. simpl result_bind.
  pose proof (scan_keeps Q fl r (2 * String.length s + 2) false s Hs) as Hk.
  fold (finditer fl r s) in Hk.
  destruct (finditer fl r s) as [ms tail]. intros [= <-].
  now apply substitute_all.
Qed.

Lemma collapse_keeps_no_digit (name : string) :
  str_forallb not_digit name = true ->
  exists out, collapse_separators name = Ok out
              /\ str_forallb not_digit out = true.
Proof.
  intros H. unfold collapse_separators, ReSub.sub.
  change (Template.parse_template " ") with (Ok [Template.Literal " "]).
  simpl result_bind.
  pose proof (scan_keeps not_digit no_flags separator_re
                (2 * String.length name + 2) false name H) as Hs.
  fold (finditer no_flags separator_re name) in Hs.
  destruct (finditer no_flags separator_re name) as [ms tail].
  eexists. split; [reflexivity|].
  apply substitute_all; [reflexivity | exact Hs].
Qed.

Lemma collapse_total (name : string) :
  exists out, collapse_separators name = Ok out.
Proof.
  unfold collapse_separators, ReSub.sub.
  change (Template.parse_template " ") with (Ok [Template.Literal " "]).
  simpl result_bind.
  destruct (finditer no_flags separator_re name) as [ms tail].
  now eexists.
Qed.

(** The normalizer always returns a name: the title-casing of the trimmed
    result of its rewriting steps. *)
Lemma normalize_parts (filename : string) :
  exists n1 n2 n4,
    strip_arch (strip_extension filename) = Ok n1
    /\ strip_version n1 = Ok n2
    /\ collapse_separators (truncate_at_separator n2) = Ok n4
    /\ normalize_tool_name filename = Ok (str_title (str_strip n4)).
Proof.
  unfold normalize_tool_name.
  destruct (strip_arch_total (strip_extension filename)) as [n1 E1].
  destruct (strip_version_no_digit n1) as (n2 & E2 & _).
  destruct (collapse_total (truncate_at_separator n2)) as [n4 E4].
  exists n1, n2, n4. rewrite E1. simpl result_bind. rewrite E2.
  simpl result_bind. rewrite E4. simpl result_bind. auto.
Qed.

Lemma strip_extension_keeps (Q : ascii -> bool) (filename : string) :
  str_forallb Q filename = true ->
  str_forallb Q (strip_extension filename) = true.
Proof.
  intros H. unfold strip_extension. now apply name_stem_keeps, path_name_keeps.
Qed.

(** What the extension-free name has and a space has, the text handed to
    the title-casing has. *)
Lemma steps_keep (Q : ascii -> bool) (stem n1 n2 n4 : string) :
  Q " "%char = true ->
  str_forallb Q stem = true ->
  strip_arch stem = Ok n1 ->
  strip_version n1 = Ok n2 ->
  collapse_separators (truncate_at_separator n2) = Ok n4 ->
  str_forallb Q (str_strip n4) = true.
Proof.
  intros Hsp H0 E1 E2 E4.
  assert (H1 : str_forallb Q n1 = true).
  { eapply (sub_keeps Q I arch_re "" []); eauto; reflexivity. }
  assert (H2 : str_forallb Q n2 = true).
  { eapply (sub_keeps Q I version_re "" []); eauto; reflexivity. }
  apply strip_keeps.
  eapply (sub_keeps Q no_flags separator_re " " [Template.Literal " "]);
    [reflexivity | | | exact E4].
  - intros m. simpl. now rewrite Hsp.
  - now apply truncate_keeps.
Qed.

(** For an ASCII file name the text handed to the title-casing is ASCII, and
    the name is its ASCII title-casing. *)
Lemma normalize_ascii (filename : string) :
  is_ascii filename = true ->
  exists n1 n2 n4,
    strip_arch (strip_extension filename) = Ok n1
    /\ strip_version n1 = Ok n2
    /\ collapse_separators (truncate_at_separator n2) = Ok n4
    /\ is_ascii (str_strip n4) = true
    /\ normalize_tool_name filename = Ok (title_from false (str_strip n4)).
Proof.
  intros Ha.
  destruct (normalize_parts filename) as (n1 & n2 & n4 & E1 & E2 & E4 & En).
  assert (H4 : is_ascii (str_strip n4) = true).
  { apply (steps_keep Char.is_ascii (strip_extension filename) n1 n2 n4);
      auto. now apply strip_extension_keeps. }
  exists n1, n2, n4. rewrite <- (str_title_ascii _ H4). auto.
Qed.

(** The normalizer returns a name for an ASCII file name; the name has no
    decimal digit, is in title case and is ASCII. *)
Lemma normalize_tool_name_clean (filename : string) :
  is_ascii filename = true ->
  exists name,
    normalize_tool_name filename = Ok name
    /\ str_forallb not_digit name = true
    /\ is_title_cased name = true
    /\ is_ascii name = true.
Proof.
  intros Ha.
  destruct (normalize_ascii filename Ha)
    as (n1 & n2 & n4 & E1 & E2 & E4 & H4 & En).
  exists (title_from false (str_strip n4)). split; [exact En|].
  destruct (strip_version_no_digit n1) as (n2' & E2' & H2).
  assert (n2' = n2) by congruence. subst n2'.
  destruct (collapse_keeps_no_digit _ (truncate_keeps not_digit n2 H2))
    as (n4' & E4' & Hd).
  assert (n4' = n4) by congruence. subst n4'.
  split; [|split].
  - apply title_from_no_digit, strip_keeps, Hd.
  - apply title_from_cased.
  - apply title_from_keeps;
      [exact CharFacts.is_ascii_lower | exact CharFacts.is_ascii_upper | exact H4].
Qed.

Lemma startswith_exists (Q : ascii -> bool) (p s : string) :
  startswith p s = true -> str_existsb Q p = true -> str_existsb Q s = true.
Proof.
  revert s. induction p as [|a p IH]; intros s; simpl; [discriminate|].
  destruct s as [|b s]; [discriminate|]. simpl. intros H Hq.
  apply andb_prop in H as [Hab Hp]. apply Ascii.eqb_eq in Hab as <-.
  destruct (Q a); [reflexivity|]. simpl in *. now apply IH.
Qed.

Lemma contains_exists (Q : ascii -> bool) (p s : string) :
  str_contains p s = true -> str_existsb Q p = true -> str_existsb Q s = true.
Proof.
  intros H Hq. induction s as [|c s IH].
  - simpl in H. rewrite orb_false_r in H. now apply (startswith_exists Q p).
  - simpl in H. apply orb_prop in H as [H|H].
    + now apply (startswith_exists Q p).
    + simpl. rewrite (IH H). apply orb_true_r.
Qed.

Lemma lower_keeps_no_digit (s : string) :
  str_forallb not_digit s = true -> str_forallb not_digit (str_lower s) = true.
Proof.
  unfold str_lower, not_digit. induction s as [|c s IH]; simpl; [auto|].
  intros H. apply andb_prop in H as [Hc Hs].
  now rewrite CharFacts.isdigit_lower, Hc, IH.
Qed.

(** Every architecture token has a digit, so a name without digits has no
    architecture token. *)
Lemma no_digit_no_arch_token (name : string) :
  str_forallb not_digit name = true -> has_arch_token name = false.
Proof.
  intros H. apply lower_keeps_no_digit in H.
  assert (Hd : str_existsb Char.isdigit (str_lower name) = false).
  { rewrite existsb_forallb. unfold not_digit in H. now rewrite H. }
  unfold has_arch_token, ARCH_TOKENS. simpl.
  repeat match goal with
  | |- context [str_contains ?t (str_lower name)] =>
      let E := fresh "E" in
      destruct (str_contains t (str_lower name)) eqn:E;
      [ apply (contains_exists Char.isdigit) in E; [congruence | reflexivity] | ]
  end.
  reflexivity.
Qed.

End NormalizeFacts.




(** C8.  The rules run in the order of the source: the extension is
    stripped, then the architecture tokens, then the version tokens, then the
    name is cut at the first separator, the remaining separators are
    collapsed, and the result is trimmed and title-cased.  On
    [DiskGeniusPro_x64_v1.2.3.7z] the steps give [DiskGeniusPro_x64_v1.2.3],
    [DiskGeniusPro__v1.2.3], [DiskGeniusPro__], [DiskGeniusPro],
    [DiskGeniusPro] and at last [Diskgeniuspro]. *)
Theorem normalize_tool_name_DiskGeniusPro :
  (forall filename,
     normalize_tool_name filename
     = let? a := strip_arch (strip_extension filename) in
       let? v := strip_version a in
       let? c := collapse_separators (truncate_at_separator v) in
       Ok (str_title (str_strip c)))
  /\ strip_extension "DiskGeniusPro_x64_v1.2.3.7z" = "DiskGeniusPro_x64_v1.2.3"
  /\ strip_arch "DiskGeniusPro_x64_v1.2.3" = Ok "DiskGeniusPro__v1.2.3"
  /\ strip_version "DiskGeniusPro__v1.2.3" = Ok "DiskGeniusPro__"
  /\ truncate_at_separator "DiskGeniusPro__" = "DiskGeniusPro"
  /\ collapse_separators "DiskGeniusPro" = Ok "DiskGeniusPro"
  /\ str_title (str_strip "DiskGeniusPro") = "Diskgeniuspro"
  /\ normalize_tool_name "DiskGeniusPro_x64_v1.2.3.7z" = Ok "Diskgeniuspro".
Proof.
  split; [intros filename; reflexivity|].
  repeat split; vm_compute; reflexivity.
Qed.

(* ================================================================= *)
(** ** Tool function lookup *)

Lemma split_first (sep : ascii) (s : string) :
  exists rest, str_split sep s = before_first sep s :: rest.
Proof.
  induction s as [|c s [rest IH]]; simpl.
  - now exists [].
  - destruct (Ascii.eqb c sep).
    + now exists (str_split sep s).
    + rewrite IH. now exists rest.
Qed.

Section LookupFacts.

Variable remote : oracle.

(** A lookup that raises is swallowed by its [except] clause. *)
Lemma wiki_lookup_raises (tool_name : string) (log : list request) :
  wiki_raises (remote log (wiki_request tool_name)) = true ->
  try_except_pass (wiki_lookup remote tool_name) log
  = (Ok None, (log ++ [wiki_request tool_name])%list).
Proof.
  unfold try_except_pass, wiki_lookup, bind, requests_get, wiki_raises, json_raises.
  destruct (remote log (wiki_request tool_name)) as [r|e]; [|reflexivity].
  intros H. apply andb_prop in H as [-> H]. unfold lift.
  destruct (json_body r); [discriminate | reflexivity].
Qed.

Lemma ddg_lookup_raises (tool_name : string) (log : list request) :
  ddg_raises (remote log (ddg_request tool_name)) = true ->
  try_except_pass (ddg_lookup remote tool_name) log
  = (Ok None, (log ++ [ddg_request tool_name])%list).
Proof.
  unfold try_except_pass, ddg_lookup, bind, requests_get, ddg_raises, json_raises.
  destruct (remote log (ddg_request tool_name)) as [r|e]; [|reflexivity].
  unfold lift. destruct (json_body r); [discriminate | reflexivity].
Qed.

Lemma query_falls_back (tool_name : string) (log : list request) :
  wiki_raises (remote log (wiki_request tool_name)) = true ->
  ddg_raises (remote (log ++ [wiki_request tool_name])%list
                     (ddg_request tool_name)) = true ->
  query_tool_function remote tool_name log
  = (Ok FALLBACK,
     (log ++ [wiki_request tool_name; ddg_request tool_name])%list).
Proof.
  intros Hw Hd. unfold query_tool_function, bind.
  rewrite (wiki_lookup_raises _ _ Hw).
  rewrite (ddg_lookup_raises _ _ Hd).
  unfold ret. now rewrite <- app_assoc.
Qed.

End LookupFacts.

(** C5.  When both lookups raise ([requests.get] raises, or decoding the
    body raises), [query_tool_function] returns the fallback text
    ["Windows utility tool"] as an ordinary value: no exception reaches the
    caller.  Both requests were made. *)
Theorem query_tool_function_both_raise
    (remote : oracle) (tool_name : string) (log : list request) :
  wiki_raises (remote log (wiki_request tool_name)) = true ->
  ddg_raises (remote (log ++ [wiki_request tool_name])%list
                     (ddg_request tool_name)) = true ->
  query_tool_function remote tool_name log
  = (Ok "Windows utility tool",
     (log ++ [wiki_request tool_name; ddg_request tool_name])%list).
Proof.
  intros Hw Hd. exact (query_falls_back remote tool_name log Hw Hd).
Qed.

Lemma query_tool_function_both_raise_witness :
  query_tool_function offline "Appzero" []
  = (Ok "Windows utility tool",
     [wiki_request "Appzero"; ddg_request "Appzero"]).
Proof.
  apply (query_tool_function_both_raise offline "Appzero" []); reflexivity.
Defined.

(** C9.  When the encyclopedia answers with status 200 and a body whose
    [extract] is a non-empty text, [query_tool_function] returns the text
    before the first period of the extract, and the only request made is the
    encyclopedia one, whatever the second service would have answered. *)
Theorem query_tool_function_wiki_first
    (remote : oracle) (tool_name : string) (log : list request)
    (r : response) (items : list (string * json)) (extract : string) :
  remote log (wiki_request tool_name) = Ok r ->
  status_code r = 200%Z ->
  json_body r = Ok (JDict items) ->
  lookup "extract" items = Some (JStr extract) ->
  extract <> "" ->
  query_tool_function remote tool_name log
  = (Ok (before_first "." extract), (log ++ [wiki_request tool_name])%list).
Proof.
  intros Hr Hs Hj Hl He.
  unfold query_tool_function, bind, try_except_pass, wiki_lookup, bind,
    requests_get.
  rewrite Hr, Hs. simpl. unfold lift. rewrite Hj. simpl. rewrite Hl. simpl.
  destruct (String.eqb_spec extract "") as [E|_]; [contradiction|]. simpl.
  destruct (split_first "." extract) as [rest ->]. reflexivity.
Qed.

Lemma query_tool_function_wiki_first_witness :
  query_tool_function wiki_only "7 Zip" []
  = (Ok "7-Zip is a file archiver", [wiki_request "7 Zip"]).
Proof.
  refine (query_tool_function_wiki_first wiki_only "7 Zip" []
            {| status_code := 200;
               json_body := Ok (JDict [("title", JStr "7-Zip");
                                       ("extract",
                                        JStr "7-Zip is a file archiver. It is free.")]) |}
            [("title", JStr "7-Zip");
             ("extract", JStr "7-Zip is a file archiver. It is free.")]
            "7-Zip is a file archiver. It is free." _ _ _ _ _);
    try reflexivity.
  discriminate.
Defined.

(** C3.  With the first lookup failing and the second service answering
    with status 500 and a body that carries an abstract,
    [query_tool_function] returns the text of that abstract and not the
    fallback: the second lookup never looks at the status. *)
Theorem query_tool_function_ignores_ddg_status :
  (exists r, error_page_with_abstract [wiki_request "Appzero"]
               (ddg_request "Appzero") = Ok r
             /\ status_code r = 500%Z) /\
  fst (query_tool_function error_page_with_abstract "Appzero" [])
  = Ok "Cached answer" /\
  fst (query_tool_function error_page_with_abstract "Appzero" [])
  <> Ok FALLBACK.
Proof.
  split; [|split].
  - eexists. split; reflexivity.
  - reflexivity.
  - discriminate.
Qed.

(** C4.  The encyclopedia request passes the header
    [User-Agent: WinToolsTableGenerator/1.0] and a time-out of 5 seconds; the
    instant-answer request has the time-out of 5 seconds but passes no
    headers at all, so the fixed user agent is not sent with it.  Both
    requests are made when the first lookup fails. *)
Theorem ddg_request_without_user_agent :
  snd (query_tool_function offline "Appzero" [])
  = [wiki_request "Appzero"; ddg_request "Appzero"] /\
  (forall tool_name,
     sends_user_agent (wiki_request tool_name) = true /\
     timeout (wiki_request tool_name) = Some 5%Z /\
     headers (ddg_request tool_name) = None /\
     sends_user_agent (ddg_request tool_name) = false /\
     timeout (ddg_request tool_name) = Some 5%Z).
Proof.
  split; [reflexivity|]. intros tool_name. repeat split.
Qed.

(* ================================================================= *)
(** ** Markdown update logic *)

Module UpdateFacts.
Import Re ReFacts.

Lemma line_end_suffix (t : string) : exists a, t = a ++ line_end t.
Proof.
  induction t as [|c t [a IH]]; simpl.
  - now exists "".
  - destruct (Ascii.eqb c Char.newline).
    + now exists "".
    + exists (String c a). simpl. now rewrite <- IH.
Qed.

Lemma line_end_barrier (t : string) : barrier (line_end t) = true.
Proof.
  induction t as [|c t IH]; simpl; [reflexivity|].
  destruct (Ascii.eqb c Char.newline) eqn:E; [|exact IH].
  simpl. exact E.
Qed.

(** *** Occurrences of a word that has no newline *)

Section Occurrences.

Variable p : string.
Hypothesis p_not_empty : p <> "".

Lemma occurrences_nil : occurrences p "" = 0.
Proof. destruct p; [contradiction | reflexivity]. Qed.

Lemma occurrences_cons c s :
  occurrences p (String c s)
  = (if startswith p (String c s) then 1 else 0) + occurrences p s.
Proof. reflexivity. Qed.

Lemma contains_occurrences s :
  str_contains p s = true <-> 1 <= occurrences p s.
Proof.
  induction s as [|c s IH].
  - simpl. destruct p; [contradiction|]. simpl. split; [discriminate | lia].
  - cbn [str_contains]. rewrite occurrences_cons.
    destruct (startswith p (String c s)); simpl.
    + split; [lia | reflexivity].
    + exact IH.
Qed.

Lemma occurrences_suffix a b : occurrences p b <= occurrences p (a ++ b).
Proof.
  induction a as [|c a IH]; simpl append; [lia|].
  rewrite occurrences_cons. lia.
Qed.

Hypothesis p_one_line : str_forallb not_newline p = true.

Lemma startswith_barrier :
  forall q a t,
    str_forallb not_newline q = true -> barrier t = true ->
    startswith q (a ++ t) = startswith q a.
Proof.
  induction q as [|c q IH]; intros a t Hq Ht; [now destruct a, t|].
  simpl in Hq. apply andb_prop in Hq as [Hc Hq].
  destruct a as [|b a]; simpl.
  - destruct t as [|d t]; [reflexivity|]. simpl in Ht.
    apply Ascii.eqb_eq in Ht as ->. unfold not_newline in Hc.
    now destruct (Ascii.eqb c Char.newline).
  - now rewrite IH.
Qed.

Lemma occurrences_barrier a t :
  barrier t = true -> occurrences p (a ++ t) = occurrences p a + occurrences p t.
Proof.
  intros Ht. induction a as [|c a IH].
  - now rewrite occurrences_nil.
  - change (String c a ++ t) with (String c (a ++ t)).
    rewrite !occurrences_cons, IH.
    change (String c (a ++ t)) with (String c a ++ t).
    rewrite startswith_barrier by assumption. lia.
Qed.

End Occurrences.

Lemma startswith_tail (q : string) (c : ascii) (s x : string) :
  q <> "" -> String c s = q ++ x -> exists b, s = b ++ x.
Proof.
  destruct q as [|a q]; [contradiction|]. simpl. intros _ H.
  injection H as _ ->. now exists q.
Qed.

Lemma startswith_short (q h x y : string) :
  String.length q <= String.length h ->
  startswith q (h ++ x) = startswith q (h ++ y).
Proof.
  revert h. induction q as [|a q IH]; intros h Hl.
  - now destruct (h ++ x), (h ++ y).
  - destruct h as [|b h]; [simpl in Hl; lia|]. simpl.
    rewrite (IH h); [reflexivity | simpl in Hl; lia].
Qed.

(** The lazy [[\s\S]*?] followed by [$] stops at the end of the line. *)
Lemma lazy_any_to_eol (kf : string -> option string) :
  forall n t,
    String.length t <= n ->
    (forall u, String.length u <= String.length t -> kf u = Some u) ->
    star_loop (mt MULTILINE (In any_char)) false
      (fun s' => mt MULTILINE Eol s' kf) n t
    = Some (line_end t).
Proof.
  induction n as [|n IH]; intros t Hlen Hkf.
  - destruct t; [|simpl in Hlen; lia]. simpl. now apply Hkf.
  - destruct t as [|c t].
    + simpl. now rewrite Hkf.
    + cbn [star_loop mt at_eol multiline MULTILINE orb line_end].
      rewrite andb_true_r.
      destruct (Ascii.eqb c Char.newline) eqn:E.
      * now rewrite Hkf.
      * unfold in_matches, any_char. simpl ignorecase. cbv iota.
        replace (String.length t <? String.length (String c t))%nat with true
          by (symmetry; apply Nat.ltb_lt; simpl; lia).
        apply IH; [simpl in Hlen; lia|].
        intros u Hu. apply Hkf. simpl. lia.
Qed.

Lemma startswith_split (p s : string) :
  startswith p s = true -> s = p ++ str_drop (String.length p) s.
Proof.
  revert s. induction p as [|a p IH]; intros s H; simpl.
  - now destruct s.
  - destruct s as [|b s]; [discriminate|]. simpl in H.
    apply andb_prop in H as [Hab Hp]. apply Ascii.eqb_eq in Hab as <-.
    simpl. f_equal. now apply IH.
Qed.

(** One attempt of the table pattern: it matches exactly where the header
    starts, and the match ends at the end of that line. *)
Lemma table_match_at (adv : bool) (s : string) :
  match_at MULTILINE table_re adv s
  = if startswith TABLE_HEADER s
    then Some (line_end (str_drop (String.length TABLE_HEADER) s))
    else None.
Proof.
  unfold match_at, table_re.
  change (mt MULTILINE (Cat (Word TABLE_HEADER) ?r) s ?k)
    with (mt MULTILINE (Word TABLE_HEADER) s (fun s' => mt MULTILINE r s' k)).
  rewrite mt_word by reflexivity.
  destruct (startswith TABLE_HEADER s) eqn:E; [|reflexivity].
  apply startswith_split in E.
  set (t := str_drop (String.length TABLE_HEADER) s) in *.
  change (mt MULTILINE (Cat (Star false (In ?p)) Eol) t ?k)
    with (star_loop (mt MULTILINE (In any_char)) false
            (fun s' => mt MULTILINE Eol s' k) (String.length t) t).
  apply lazy_any_to_eol; [lia|].
  intros u Hu. rewrite E, length_append.
  replace (String.length u =? String.length TABLE_HEADER + String.length t)%nat
    with false; [now rewrite andb_false_r|].
  symmetry. apply Nat.eqb_neq. simpl. lia.
Qed.

Lemma sub_render (fl : flags) (r : regex) (repl s : string) :
  ReSub.sub fl r repl s
  = let? pieces := Template.parse_template repl in
    Ok (render pieces (finditer fl r s)).
Proof.
  unfold ReSub.sub, render. destruct (Template.parse_template repl); simpl;
    [|reflexivity].
  now destruct (finditer fl r s).
Qed.

Lemma render_push pieces c x :
  render pieces (push_char c x) = String c (render pieces x).
Proof. now destruct x as [[|[gap m] ms] tail]. Qed.

(** A replacement text without backslash stands for itself. *)
Lemma parse_literal (m : string) :
  forall fuel t,
    String.length t < fuel ->
    no_backslash t = true ->
    exists pieces,
      Template.parse fuel t = Ok pieces /\ Template.expand pieces m = t.
Proof.
  unfold no_backslash.
  induction fuel as [|fuel IH]; intros t Hlen Hb; [lia|].
  destruct t as [|c t]; [now exists []|].
  simpl in Hb, Hlen. rewrite negb_orb in Hb. apply andb_prop in Hb as [Hc Ht].
  destruct (IH t) as (pieces & Hp & He); [lia | exact Ht |].
  exists (Template.Literal (String c "") :: pieces).
  cbn [Template.parse]. rewrite Hc, Hp. simpl. now rewrite He.
Qed.

Lemma parse_template_literal (t : string) :
  no_backslash t = true ->
  exists pieces,
    Template.parse_template t = Ok pieces
    /\ forall m, Template.expand pieces m = t.
Proof.
  intros Hb. unfold Template.parse_template.
  destruct (parse_literal "" (S (String.length t)) t) as (pieces & Hp & _);
    [lia | exact Hb |].
  exists pieces. split; [exact Hp|]. intros m.
  destruct (parse_literal m (S (String.length t)) t) as (pieces' & Hp' & He);
    [lia | exact Hb |].
  congruence.
Qed.

(** *** The substitution, line by line *)

Section Replace.

Variable pieces : list Template.piece.
Variable table : string.
Hypothesis expand_table : forall m, Template.expand pieces m = table.

Lemma replaced_nil fuel adv : replaced pieces (S fuel) adv "" = "".
Proof. reflexivity. Qed.

Lemma replaced_skip fuel adv c s :
  startswith TABLE_HEADER (String c s) = false ->
  replaced pieces (S fuel) adv (String c s) = String c (replaced pieces fuel false s).
Proof.
  intros H. unfold replaced. cbn [scan]. rewrite table_match_at, H.
  apply render_push.
Qed.

Lemma replaced_match fuel adv s :
  startswith TABLE_HEADER s = true ->
  exists adv',
    replaced pieces (S fuel) adv s
    = table ++ replaced pieces fuel adv'
                 (line_end (str_drop (String.length TABLE_HEADER) s)).
Proof.
  intros H. unfold replaced. cbn [scan]. rewrite table_match_at, H.
  set (rest := line_end (str_drop (String.length TABLE_HEADER) s)).
  set (adv' := (String.length (str_take (String.length s - String.length rest) s)
                =? 0)%nat).
  exists adv'. destruct (scan fuel MULTILINE table_re adv' rest) as [ms tail].
  unfold render. simpl. now rewrite expand_table.
Qed.

Lemma rest_shorter (s : string) :
  startswith TABLE_HEADER s = true ->
  String.length (line_end (str_drop (String.length TABLE_HEADER) s))
  < String.length s.
Proof.
  intros H. apply startswith_split in H.
  destruct (line_end_suffix (str_drop (String.length TABLE_HEADER) s)) as [a Ha].
  apply (f_equal String.length) in H, Ha. rewrite length_append in H, Ha.
  simpl in H, Ha |- *. lia.
Qed.

(** Where the document holds the header, the result holds the table. *)
Lemma replaced_holds_table :
  forall fuel adv s,
    String.length s < fuel ->
    str_contains TABLE_HEADER s = true ->
    exists before after, replaced pieces fuel adv s = before ++ table ++ after.
Proof.
  induction fuel as [|fuel IH]; intros adv s Hlen Hc; [lia|].
  destruct (startswith TABLE_HEADER s) eqn:E.
  - destruct (replaced_match fuel adv s E) as [adv' ->].
    now exists "", (replaced pieces fuel adv'
                     (line_end (str_drop (String.length TABLE_HEADER) s))).
  - destruct s as [|c s]; [discriminate|].
    rewrite replaced_skip by exact E.
    cbn [str_contains] in Hc. rewrite E in Hc. simpl in Hc, Hlen.
    destruct (IH false s) as (before & after & ->); [lia | exact Hc |].
    now exists (String c before), after.
Qed.

(** *** The header count of the result *)

Lemma header_one_line : str_forallb not_newline TABLE_HEADER = true.
Proof. reflexivity. Qed.

Lemma header_not_empty : TABLE_HEADER <> "".
Proof. discriminate. Qed.

Lemma header_not_at_newline (s : string) :
  startswith TABLE_HEADER (String Char.newline s) = false.
Proof. reflexivity. Qed.

Hypothesis table_starts : exists rows, table = TABLE_HEADER ++ rows.

(** The result starts like the document, as far as the header is long. *)
Lemma replaced_first :
  forall fuel adv s q,
    String.length s < fuel ->
    String.length q <= String.length TABLE_HEADER ->
    startswith q (replaced pieces fuel adv s) = startswith q s.
Proof.
  induction fuel as [|fuel IH]; intros adv s q Hlen Hq; [lia|].
  destruct (startswith TABLE_HEADER s) eqn:E.
  - destruct (replaced_match fuel adv s E) as [adv' ->].
    destruct table_starts as [rows ->]. rewrite append_assoc.
    rewrite (startswith_split _ _ E) at 2.
    now apply startswith_short.
  - destruct s as [|c s]; [reflexivity|].
    rewrite replaced_skip by exact E.
    destruct q as [|a q]; [reflexivity|]. simpl.
    rewrite IH; [reflexivity | simpl in Hlen; lia | simpl in Hq |- *; lia].
Qed.

Lemma replaced_barrier fuel adv s :
  String.length s < fuel ->
  barrier s = true -> barrier (replaced pieces fuel adv s) = true.
Proof.
  intros Hlen Hs. destruct fuel as [|fuel]; [lia|].
  destruct s as [|c s]; [reflexivity|].
  simpl in Hs. apply Ascii.eqb_eq in Hs as ->.
  rewrite replaced_skip by apply header_not_at_newline.
  reflexivity.
Qed.

Hypothesis table_once : occurrences TABLE_HEADER table = 1.

Lemma replaced_count :
  forall fuel adv s,
    String.length s < fuel ->
    occurrences TABLE_HEADER (replaced pieces fuel adv s) <= occurrences TABLE_HEADER s
    /\ (1 <= occurrences TABLE_HEADER s ->
        1 <= occurrences TABLE_HEADER (replaced pieces fuel adv s)).
Proof.
  induction fuel as [|fuel IH]; intros adv s Hlen; [lia|].
  destruct (startswith TABLE_HEADER s) eqn:E.
  - destruct (replaced_match fuel adv s E) as [adv' ->].
    set (rest := line_end (str_drop (String.length TABLE_HEADER) s)).
    assert (Hrest : String.length rest < fuel).
    { pose proof (rest_shorter s E). fold rest in H. lia. }
    rewrite (occurrences_barrier TABLE_HEADER header_not_empty header_one_line)
      by (apply replaced_barrier; [exact Hrest | apply line_end_barrier]).
    rewrite table_once.
    destruct (IH adv' rest Hrest) as [Hle _].
    assert (Hs : 1 + occurrences TABLE_HEADER rest <= occurrences TABLE_HEADER s).
    { destruct s as [|c s]; [discriminate|].
      rewrite occurrences_cons, E.
      pose proof (startswith_split _ _ E) as Hsplit.
      destruct (line_end_suffix (str_drop (String.length TABLE_HEADER) (String c s)))
        as [a Ha].
      fold rest in Ha. rewrite Ha in Hsplit.
      apply startswith_tail in Hsplit as [b Hb]; [|exact header_not_empty].
      clearbody rest. rewrite Hb, <- append_assoc.
      pose proof (occurrences_suffix TABLE_HEADER (b ++ a) rest).
      lia. }
    lia.
  - destruct s as [|c s].
    + rewrite replaced_nil. lia.
    + pose proof (replaced_first (S fuel) adv (String c s) TABLE_HEADER Hlen
                    (le_n _)) as Hf.
      rewrite replaced_skip in Hf |- * by exact E.
      rewrite !occurrences_cons, Hf, E.
      simpl in Hlen. destruct (IH false s) as [Hle Hge]; [lia|]. simpl. lia.
Qed.

End Replace.

Lemma updated_content_existing (original table : string) :
  str_contains TABLE_HEADER original = true ->
  no_backslash table = true ->
  exists pieces,
    (forall m, Template.expand pieces m = table)
    /\ updated_content (Some original) table
       = Ok (replaced pieces (2 * String.length original + 2) false original).
Proof.
  intros Hc Hb. unfold updated_content. rewrite Hc, sub_render.
  destruct (parse_template_literal table Hb) as (pieces & -> & He).
  now exists pieces.
Qed.

Lemma build_starts (tools : list (string * string)) :
  exists rows, build_markdown_table tools = TABLE_HEADER ++ rows.
Proof.
  exists (nl ++ str_join nl (TABLE_RULE :: map table_row tools)). reflexivity.
Qed.

(** Whatever the state of the target, the new content holds the table. *)
Lemma updated_content_holds_table (target : option string) (table : string) :
  no_backslash table = true ->
  exists content before after,
    updated_content target table = Ok content
    /\ content = before ++ table ++ after.
Proof.
  intros Hb. destruct target as [original|].
  - destruct (str_contains TABLE_HEADER original) eqn:Hc.
    + destruct (updated_content_existing original table Hc Hb)
        as (pieces & He & ->).
      destruct (replaced_holds_table pieces table He
                  (2 * String.length original + 2) false original)
        as (before & after & Hr); [lia | exact Hc |].
      eexists. exists before, after. split; [reflexivity | exact Hr].
    + unfold updated_content. rewrite Hc.
      eexists. exists (original ++ nl ++ nl), "". split; [reflexivity|].
      now rewrite !append_assoc, append_nil_r.
  - exists table, "", "". split; [reflexivity|]. simpl. now rewrite append_nil_r.
Qed.

(** With a table that holds the header once, at its start, a target that
    holds the header at most once is left with exactly one header.  The
    table is read as a replacement template only where the target holds the
    header; there it is to have no backslash. *)
Lemma updated_content_one_header (target : option string) (table : string) :
  (exists rows, table = TABLE_HEADER ++ rows) ->
  occurrences TABLE_HEADER table = 1 ->
  at_most_one_header target ->
  (has_header target = true -> no_backslash table = true) ->
  exists content,
    updated_content target table = Ok content
    /\ occurrences TABLE_HEADER content = 1.
Proof.
  intros Hstart Honce Hprior Hback. destruct target as [original|].
  - simpl in Hprior, Hback.
    destruct (str_contains TABLE_HEADER original) eqn:Hc.
    + destruct (updated_content_existing original table Hc (Hback eq_refl))
        as (pieces & He & ->).
      eexists. split; [reflexivity|].
      destruct (replaced_count pieces table He Hstart Honce
                  (2 * String.length original + 2) false original)
        as [Hle Hge]; [lia|].
      apply (contains_occurrences TABLE_HEADER header_not_empty) in Hc.
      specialize (Hge Hc). lia.
    + unfold updated_content. rewrite Hc. eexists. split; [reflexivity|].
      rewrite (occurrences_barrier TABLE_HEADER header_not_empty header_one_line)
        by reflexivity.
      assert (H0 : occurrences TABLE_HEADER original = 0).
      { destruct (occurrences TABLE_HEADER original) as [|n] eqn:En; [reflexivity|].
        assert (Hn : 1 <= occurrences TABLE_HEADER original) by lia.
        apply (contains_occurrences TABLE_HEADER header_not_empty) in Hn.
        congruence. }
      rewrite H0. change (nl ++ nl ++ table)
        with (String Char.newline (String Char.newline table)).
      rewrite !occurrences_cons, !header_not_at_newline. simpl. exact Honce.
  - exists table. split; [reflexivity | exact Honce].
Qed.

End UpdateFacts.

(** C1.  On a document that holds an introduction and an earlier table of
    one row, [update_markdown_file] keeps the introduction and puts the new
    table where the header line was, but the rule and the row of the earlier
    table stay behind it: the pattern ends at the end of the header line, not
    at the end of the file. *)
Theorem update_markdown_file_leaves_old_rows :
  str_contains TABLE_HEADER old_document = true
  /\ update_markdown_file (Some old_document) new_table
     = Ok (Some ("# Tools" ++ nl ++ nl ++ new_table
                 ++ nl ++ TABLE_RULE ++ nl ++ "| Old | gone |"))
  /\ update_markdown_file (Some old_document) new_table
     <> Ok (Some ("# Tools" ++ nl ++ nl ++ new_table)).
Proof.
  split; [reflexivity|]. split; [vm_compute; reflexivity|].
  vm_compute. intros H. discriminate H.
Qed.




(* ================================================================= *)
(** ** Main execution *)

Section RunFacts.

Variable remote : oracle.

Lemma collect_unsupported (items : list dir_entry) :
  forallb (fun item => negb (supported item)) items = true ->
  forall collected log, collect remote items collected log = (Ok collected, log).
Proof.
  induction items as [|item items IH]; intros H collected log; [reflexivity|].
  simpl in H. apply andb_prop in H as [Hitem Hitems].
  cbn [collect]. destruct (supported item); [discriminate|]. now apply IH.
Qed.

Lemma collect_supported (item : dir_entry) (items : list dir_entry)
    (collected : list (string * string)) (log log' : list request)
    (tool_name function : string) :
  supported item = true ->
  normalize_tool_name (entry_name item) = Ok tool_name ->
  query_tool_function remote tool_name log = (Ok function, log') ->
  collect remote (item :: items) collected log
  = collect remote items (collected ++ [(tool_name, function)])%list log'.
Proof.
  intros Hs Hn Hq. cbn [collect]. rewrite Hs. unfold bind, lift.
  now rewrite Hn, Hq.
Qed.

End RunFacts.

(** C10.  The table of no tools is the header line and the rule line joined
    by a newline.  A run over a directory without any supported file makes
    no request and still writes: the target gets the content
    [update_markdown_file] computes for this table, which holds the table;
    where the target did not exist it is the table. *)
Theorem header_only_table_written
    (remote : oracle) (items : list dir_entry) (target : option string)
    (log : list request) :
  forallb (fun item => negb (supported item)) items = true ->
  build_markdown_table [] = "| Name | Function |" ++ nl ++ "| ---- | -------- |"
  /\ exists content,
       main remote items target log = (Ok (Some content), log)
       /\ updated_content target (build_markdown_table []) = Ok content
       /\ (exists before after,
             content = before ++ build_markdown_table [] ++ after)
       /\ (target = None -> content = build_markdown_table []).
Proof.
  intros Hitems. split; [reflexivity|].
  destruct (UpdateFacts.updated_content_holds_table target
              (build_markdown_table []) eq_refl)
    as (content & before & after & Hu & Hc).
  exists content. repeat split.
  - unfold main, markdown_table, bind.
    rewrite (collect_unsupported remote items Hitems).
    unfold ret, lift, update_markdown_file. cbn [sort_by fold_left fst].
    now rewrite Hu.
  - exact Hu.
  - now exists before, after.
  - intros ->. simpl in Hu. now injection Hu as <-.
Qed.

Lemma header_only_table_written_witness :
  build_markdown_table [] = "| Name | Function |" ++ nl ++ "| ---- | -------- |"
  /\ exists content,
       main offline no_tools_dir (Some "# Tools") [] = (Ok (Some content), [])
       /\ updated_content (Some "# Tools") (build_markdown_table []) = Ok content
       /\ (exists before after,
             content = before ++ build_markdown_table [] ++ after)
       /\ (Some "# Tools" = None -> content = build_markdown_table []).
Proof.
  apply (header_only_table_written offline no_tools_dir (Some "# Tools") []).
  reflexivity.
Defined.

(** C2, as the claim states it, fails: with both services down, the run
    over [AppOne_x64.exe] and [appzero.zip] gives a table in which the
    [Appzero] row does not come before the row of [AppOne_x64.exe]. *)
Lemma appzero_row_is_last :
  fst (markdown_table offline [appone_exe; appzero_zip] []) = Ok two_tools_table
  /\ row_before appzero_row appone_row two_tools_table = false.
Proof. split; vm_compute; reflexivity. Qed.

(** C2, amended.  For a directory that holds exactly [AppOne_x64.exe] and
    [appzero.zip], in either order, with both lookups raising, the table of
    the run has its rows sorted by name, letter case ignored, ascending:
    the [Appone] row, derived from [AppOne_x64.exe], comes before the
    [Appzero] row, and each row carries the fallback description.  This
    table is what the run writes into a target that did not exist. *)
Theorem two_tools_sorted
    (remote : oracle) (items : list dir_entry) (log : list request) :
  (forall history tool_name,
     wiki_raises (remote history (wiki_request tool_name)) = true
     /\ ddg_raises (remote history (ddg_request tool_name)) = true) ->
  Permutation [appone_exe; appzero_zip] items ->
  fst (markdown_table remote items log) = Ok two_tools_table
  /\ fst (main remote items None log) = Ok (Some two_tools_table)
  /\ two_tools_table
     = build_markdown_table [("Appone", "Windows utility tool");
                             ("Appzero", "Windows utility tool")]
  /\ row_before appone_row appzero_row two_tools_table = true.
Proof.
  intros Hdown Hperm.
  assert (Hq : forall name l,
    query_tool_function remote name l
    = (Ok FALLBACK, (l ++ [wiki_request name; ddg_request name])%list)).
  { intros name l. apply query_falls_back; apply Hdown. }
  assert (Ha : normalize_tool_name (entry_name appone_exe) = Ok "Appone")
    by (vm_compute; reflexivity).
  assert (Hz : normalize_tool_name (entry_name appzero_zip) = Ok "Appzero")
    by (vm_compute; reflexivity).
  assert (Htable : fst (markdown_table remote items log) = Ok two_tools_table).
  { apply Permutation_length_2_inv in Hperm as [-> | ->];
      unfold markdown_table, bind.
    - rewrite (collect_supported remote appone_exe _ _ _ _ _ _ eq_refl Ha (Hq _ _)).
      rewrite (collect_supported remote appzero_zip _ _ _ _ _ _ eq_refl Hz (Hq _ _)).
      reflexivity.
    - rewrite (collect_supported remote appzero_zip _ _ _ _ _ _ eq_refl Hz (Hq _ _)).
      rewrite (collect_supported remote appone_exe _ _ _ _ _ _ eq_refl Ha (Hq _ _)).
      reflexivity. }
  split; [exact Htable|]. split; [|split; vm_compute; reflexivity].
  unfold main, bind. destruct (markdown_table remote items log) as [[t|e] l];
    simpl in Htable; [|discriminate].
  injection Htable as ->. reflexivity.
Qed.

Lemma two_tools_sorted_witness :
  fst (markdown_table offline [appzero_zip; appone_exe] []) = Ok two_tools_table
  /\ fst (main offline [appzero_zip; appone_exe] None []) = Ok (Some two_tools_table)
  /\ two_tools_table
     = build_markdown_table [("Appone", "Windows utility tool");
                             ("Appzero", "Windows utility tool")]
  /\ row_before appone_row appzero_row two_tools_table = true.
Proof.
  apply (two_tools_sorted offline [appzero_zip; appone_exe] []).
  - intros history tool_name. split; reflexivity.
  - apply perm_swap.
Defined.

(* ================================================================= *)
(** * Further properties *)

(** ** Tool function lookup, for every answer of the services *)

Section LookupSpec.

Variable remote : oracle.

Lemma wiki_lookup_usable (tool_name : string) (log : list request) :
  try_except_pass (wiki_lookup remote tool_name) log
  = (Ok (usable_text "extract" true (remote log (wiki_request tool_name))),
     (log ++ [wiki_request tool_name])%list).
Proof.
  unfold try_except_pass, wiki_lookup, bind, requests_get, usable_text, lift.
  destruct (remote log (wiki_request tool_name)) as [r|e]; [|reflexivity].
  destruct (status_code r =? 200)%Z; simpl; [|reflexivity].
  destruct (json_body r) as [data|e]; [|reflexivity].
  destruct data as [|b|n|s|l|items]; try reflexivity. simpl.
  destruct (lookup "extract" items) as [v|]; [|reflexivity].
  destruct v as [|b|n|s|l|d]; simpl; try reflexivity.
  - now destruct b.
  - now destruct (n =? 0)%Z.
  - destruct (String.eqb s ""); simpl; [reflexivity|].
    now destruct (split_first "." s) as [rest ->].
  - now destruct l.
  - now destruct d.
Qed.

Lemma ddg_lookup_usable (tool_name : string) (log : list request) :
  try_except_pass (ddg_lookup remote tool_name) log
  = (Ok (usable_text "AbstractText" false (remote log (ddg_request tool_name))),
     (log ++ [ddg_request tool_name])%list).
Proof.
  unfold try_except_pass, ddg_lookup, bind, requests_get, usable_text, lift.
  destruct (remote log (ddg_request tool_name)) as [r|e]; [|reflexivity].
  simpl. destruct (json_body r) as [data|e]; [|reflexivity].
  destruct data as [|b|n|s|l|items]; try reflexivity. simpl.
  destruct (lookup "AbstractText" items) as [v|]; [|reflexivity].
  destruct v as [|b|n|s|l|d]; simpl; try reflexivity.
  - now destruct b.
  - now destruct (n =? 0)%Z.
  - destruct (String.eqb s ""); simpl; [reflexivity|].
    now destruct (split_first "." s) as [rest ->].
  - now destruct l.
  - now destruct d.
Qed.

(** The result as a function of the two outcomes. *)
Lemma query_first_usable
    (tool_name : string) (log : list request) :
  query_tool_function remote tool_name log
  = match usable_text "extract" true (remote log (wiki_request tool_name)) with
    | Some text => (Ok text, (log ++ [wiki_request tool_name])%list)
    | None =>
        (Ok match usable_text "AbstractText" false
                    (remote (log ++ [wiki_request tool_name])%list
                            (ddg_request tool_name)) with
            | Some text => text
            | None => FALLBACK
            end,
         (log ++ [wiki_request tool_name; ddg_request tool_name])%list)
    end.
Proof.
  unfold query_tool_function, bind. rewrite wiki_lookup_usable.
  destruct (usable_text "extract" true _) as [text|]; [reflexivity|].
  rewrite ddg_lookup_usable, <- app_assoc.
  now destruct (usable_text "AbstractText" false _).
Qed.

(** X1.  Whatever the two services answer, the first usable text wins: the
    result is the text of the encyclopedia when its answer is usable (and
    then only that request is made), else the text of the instant answer
    when that is usable, whatever its status, else the fallback.  A body that
    is no dict, a field that is missing, empty or no text, and every
    exception, count as no data. *)
Theorem query_tool_function_first_usable
    (tool_name : string) (log : list request) :
  query_tool_function remote tool_name log
  = match usable_text "extract" true (remote log (wiki_request tool_name)) with
    | Some text => (Ok text, (log ++ [wiki_request tool_name])%list)
    | None =>
        (Ok match usable_text "AbstractText" false
                    (remote (log ++ [wiki_request tool_name])%list
                            (ddg_request tool_name)) with
            | Some text => text
            | None => FALLBACK
            end,
         (log ++ [wiki_request tool_name; ddg_request tool_name])%list)
    end.
Proof. exact (query_first_usable tool_name log). Qed.

(** The query returns, after one or two requests. *)
Lemma query_ok
    (tool_name : string) (log : list request) :
  exists text,
    fst (query_tool_function remote tool_name log) = Ok text
    /\ (snd (query_tool_function remote tool_name log)
        = (log ++ [wiki_request tool_name])%list
        \/ snd (query_tool_function remote tool_name log)
           = (log ++ [wiki_request tool_name; ddg_request tool_name])%list).
Proof.
  rewrite query_first_usable.
  destruct (usable_text "extract" true _) as [text|]; eexists; simpl; eauto.
Qed.

(** X2.  [query_tool_function] never raises; it makes the encyclopedia
    request first and at most one more request, the instant-answer one: no
    request is repeated. *)
Theorem query_tool_function_never_raises
    (tool_name : string) (log : list request) :
  exists text,
    fst (query_tool_function remote tool_name log) = Ok text
    /\ (snd (query_tool_function remote tool_name log)
        = (log ++ [wiki_request tool_name])%list
        \/ snd (query_tool_function remote tool_name log)
           = (log ++ [wiki_request tool_name; ddg_request tool_name])%list).
Proof. exact (query_ok tool_name log). Qed.

Lemma before_first_no_sep (sep : ascii) (s : string) :
  str_existsb (fun c => Ascii.eqb c sep) (before_first sep s) = false.
Proof.
  induction s as [|c s IH]; simpl; [reflexivity|].
  destruct (Ascii.eqb c sep) eqn:E; simpl; [reflexivity|]. now rewrite E.
Qed.

Lemma usable_text_no_period field needs_200 outcome text :
  usable_text field needs_200 outcome = Some text -> has_period text = false.
Proof.
  unfold usable_text. destruct outcome as [r|e]; [|discriminate].
  destruct (needs_200 && _); [discriminate|].
  destruct (json_body r) as [[| | | | |items]|]; try discriminate.
  destruct (lookup field items) as [[| | |s| |]|]; try discriminate.
  destruct (String.eqb s ""); [discriminate|].
  intros [= <-]. apply before_first_no_sep.
Qed.

(** X3.  The description [query_tool_function] returns never holds a
    period. *)
Theorem query_tool_function_no_period
    (tool_name : string) (log : list request) (text : string) :
  fst (query_tool_function remote tool_name log) = Ok text ->
  has_period text = false.
Proof.
  rewrite query_first_usable.
  destruct (usable_text "extract" true _) as [t|] eqn:Ew; simpl.
  - intros [= <-]. now apply usable_text_no_period in Ew.
  - destruct (usable_text "AbstractText" false _) as [t|] eqn:Ed;
      intros [= <-]; [now apply usable_text_no_period in Ed | reflexivity].
Qed.

End LookupSpec.

Lemma query_tool_function_no_period_witness :
  has_period "7-Zip is a file archiver" = false.
Proof.
  apply (query_tool_function_no_period wiki_only "7 Zip" []).
  reflexivity.
Defined.

(* ================================================================= *)
(** ** The sort of the driver *)

Module SortFacts.

Lemma ascii_compare_lt_trans (a b c : ascii) :
  Ascii.compare a b = Lt -> Ascii.compare b c = Lt -> Ascii.compare a c = Lt.
Proof.
  unfold Ascii.compare. rewrite !N.compare_lt_iff. lia.
Qed.

Lemma compare_lt_trans :
  forall a b c,
    String.compare a b = Lt -> String.compare b c = Lt -> String.compare a c = Lt.
Proof.
  induction a as [|x a IH]; intros [|y b] [|z c]; simpl; try congruence.
  destruct (Ascii.compare x y) eqn:Exy; try discriminate.
  - apply Ascii.compare_eq_iff in Exy as ->.
    destruct (Ascii.compare y z); try congruence. apply IH.
  - intros _. destruct (Ascii.compare y z) eqn:Eyz; try discriminate.
    + apply Ascii.compare_eq_iff in Eyz as <-. now rewrite Exy.
    + intros _. now rewrite (ascii_compare_lt_trans x y z Exy Eyz).
Qed.

Lemma compare_refl (a : string) : String.compare a a = Eq.
Proof.
  induction a as [|x a IH]; simpl; [reflexivity|].
  unfold Ascii.compare. now rewrite N.compare_refl.
Qed.

Lemma key_le_cases (a b : string) :
  key_le a b <-> a = b \/ String.compare a b = Lt.
Proof.
  unfold key_le, String.ltb. rewrite String.compare_antisym.
  destruct (String.compare a b) eqn:E; simpl.
  - apply String.compare_eq_iff in E. tauto.
  - tauto.
  - split; [discriminate|]. intros [->|]; [|discriminate].
    rewrite compare_refl in E. discriminate.
Qed.

Lemma key_le_trans (a b c : string) : key_le a b -> key_le b c -> key_le a c.
Proof.
  rewrite !key_le_cases. intros [->|Hab] [->|Hbc]; auto.
  right. eapply compare_lt_trans; eauto.
Qed.

Lemma ltb_key_le (a b : string) : String.ltb a b = true -> key_le a b.
Proof.
  unfold key_le, String.ltb. rewrite (String.compare_antisym b a).
  now destruct (String.compare a b).
Qed.

Section Insertion.

Context {A : Type} (key : A -> string).

Lemma insert_by_perm (x : A) (l : list A) :
  Permutation (x :: l) (insert_by key x l).
Proof.
  induction l as [|y l IH]; simpl; [constructor; constructor|].
  destruct (String.ltb (key x) (key y)); [apply Permutation_refl|].
  eapply perm_trans; [apply perm_swap|]. now constructor.
Qed.

Lemma fold_insert_perm (l acc : list A) :
  Permutation (acc ++ l)%list
    (fold_left (fun sorted x => insert_by key x sorted) l acc).
Proof.
  revert acc. induction l as [|x l IH]; intros acc; simpl.
  - rewrite app_nil_r. apply Permutation_refl.
  - eapply perm_trans; [|apply IH].
    eapply perm_trans; [apply Permutation_sym, Permutation_middle|].
    apply (Permutation_app_tail l (insert_by_perm x acc)).
Qed.

Lemma insert_by_sorted (x : A) (l : list A) :
  StronglySorted (le_by key) l -> StronglySorted (le_by key) (insert_by key x l).
Proof.
  induction l as [|y l IH]; intros Hs; simpl.
  - repeat constructor.
  - inversion Hs as [|? ? Hl Hy]; subst.
    destruct (String.ltb (key x) (key y)) eqn:E.
    + constructor; [exact Hs|]. constructor; [now apply ltb_key_le|].
      eapply Forall_impl; [|exact Hy]. intros z Hz.
      eapply key_le_trans; [apply ltb_key_le, E | exact Hz].
    + constructor; [now apply IH|].
      eapply Permutation_Forall; [apply insert_by_perm|].
      constructor; [exact E | exact Hy].
Qed.

Lemma fold_insert_sorted (l acc : list A) :
  StronglySorted (le_by key) acc ->
  StronglySorted (le_by key) (fold_left (fun sorted x => insert_by key x sorted) l acc).
Proof.
  revert acc. induction l as [|x l IH]; intros acc Hs; simpl; [exact Hs|].
  now apply IH, insert_by_sorted.
Qed.

(** An entry goes behind the entries of its own key. *)
Lemma insert_by_filter (k : string) (x : A) (l : list A) :
  StronglySorted (le_by key) l ->
  filter (with_key key k) (insert_by key x l)
  = (filter (with_key key k) l
     ++ if with_key key k x then [x] else [])%list.
Proof.
  induction l as [|y l IH]; intros Hs; simpl.
  - now destruct (with_key key k x).
  - inversion Hs as [|? ? Hl Hy]; subst.
    destruct (String.ltb (key x) (key y)) eqn:E; simpl.
    + destruct (with_key key k x) eqn:Ex; [|now rewrite app_nil_r].
      unfold with_key in Ex. apply String.eqb_eq in Ex.
      assert (Hnone : filter (with_key key k) (y :: l) = []).
      { assert (Hall : Forall (le_by key y) (y :: l)).
        { constructor; [|exact Hy]. apply key_le_cases. now left. }
        clear Hs Hl Hy IH. induction Hall as [|z zs Hz _ IHz]; [reflexivity|].
        simpl. rewrite IHz. unfold with_key.
        destruct (String.eqb_spec (key z) k) as [Ez|]; [|reflexivity].
        unfold le_by, key_le in Hz. congruence. }
      simpl in Hnone. now rewrite Hnone.
    + rewrite (IH Hl). now destruct (with_key key k y).
Qed.

Lemma fold_insert_filter (k : string) (l acc : list A) :
  StronglySorted (le_by key) acc ->
  filter (with_key key k)
    (fold_left (fun sorted x => insert_by key x sorted) l acc)
  = (filter (with_key key k) acc ++ filter (with_key key k) l)%list.
Proof.
  revert acc. induction l as [|x l IH]; intros acc Hs; simpl.
  - now rewrite app_nil_r.
  - rewrite IH by now apply insert_by_sorted.
    rewrite insert_by_filter by exact Hs. rewrite <- app_assoc.
    now destruct (with_key key k x).
Qed.

End Insertion.

End SortFacts.

(** X4.  The sort of the driver returns the same entries, each as often as
    before, in an order in which no entry is before one whose key is smaller;
    keys are compared as Python compares texts. *)
Theorem sort_by_sorted_permutation {A : Type} (key : A -> string) (l : list A) :
  Permutation l (sort_by key l)
  /\ StronglySorted (le_by key) (sort_by key l).
Proof.
  split.
  - exact (SortFacts.fold_insert_perm key l []).
  - apply (SortFacts.fold_insert_sorted key l []). constructor.
Qed.

(** X5.  The sort is stable: entries with the same key (two files whose
    names differ only in letter case, or that normalize to the same name)
    keep the order in which the directory listed them. *)
Theorem sort_by_stable {A : Type} (key : A -> string) (k : string) (l : list A) :
  filter (with_key key k) (sort_by key l) = filter (with_key key k) l.
Proof.
  unfold sort_by. rewrite SortFacts.fold_insert_filter by constructor.
  reflexivity.
Qed.

(* ================================================================= *)
(** ** The lines of the table *)

Module TableFacts.
Import UpdateFacts.

Lemma split_one_line (p : string) :
  one_line p = true -> str_split Char.newline p = [p].
Proof.
  unfold one_line, not_newline. induction p as [|c p IH]; simpl; [reflexivity|].
  intros H. apply andb_prop in H as [Hc Hp].
  destruct (Ascii.eqb c Char.newline); [discriminate|]. now rewrite IH.
Qed.

Lemma split_line_rest (p rest : string) :
  one_line p = true ->
  str_split Char.newline (p ++ nl ++ rest) = p :: str_split Char.newline rest.
Proof.
  change (nl ++ rest) with (String Char.newline rest).
  unfold one_line, not_newline. induction p as [|c p IH]; simpl.
  - reflexivity.
  - intros H. apply andb_prop in H as [Hc Hp].
    destruct (Ascii.eqb c Char.newline); [discriminate|]. now rewrite IH.
Qed.

Lemma split_join (l : string) (ls : list string) :
  forallb one_line (l :: ls) = true ->
  str_split Char.newline (str_join nl (l :: ls)) = l :: ls.
Proof.
  revert l. induction ls as [|l' ls IH]; intros l H.
  - simpl in H. rewrite andb_true_r in H. now apply split_one_line.
  - cbn [forallb] in H. apply andb_prop in H as [Hl H].
    change (str_join nl (l :: l' :: ls)) with (l ++ nl ++ str_join nl (l' :: ls)).
    rewrite split_line_rest by exact Hl. now rewrite (IH l' H).
Qed.

Lemma table_row_one_line (tool : string * string) :
  one_line_fields tool = true -> one_line (table_row tool) = true.
Proof.
  destruct tool as [name function]. unfold one_line_fields, one_line. simpl fst.
  simpl snd. intros H. apply andb_prop in H as [Hn Hf]. unfold table_row.
  rewrite !forallb_append, Hn, Hf. reflexivity.
Qed.

Lemma occurrences_join (l : string) (ls : list string) :
  occurrences TABLE_HEADER (str_join nl (l :: ls))
  = occurrences TABLE_HEADER l
    + list_sum (map (occurrences TABLE_HEADER) ls).
Proof.
  revert l. induction ls as [|l' ls IH]; intros l.
  - simpl. lia.
  - change (str_join nl (l :: l' :: ls)) with (l ++ nl ++ str_join nl (l' :: ls)).
    cbn [map list_sum].
    rewrite (occurrences_barrier TABLE_HEADER header_not_empty header_one_line)
      by reflexivity.
    change (nl ++ str_join nl (l' :: ls))
      with (String Char.newline (str_join nl (l' :: ls))).
    rewrite occurrences_cons, header_not_at_newline, IH. simpl. lia.
Qed.

End TableFacts.

(** X6.  When no name and no description holds a newline, the lines of the
    table are the header line, the rule line and one row per tool, in the
    order of the list: reading the table back line by line gives the rows
    that were rendered. *)
Theorem build_markdown_table_lines (tools : list (string * string)) :
  forallb one_line_fields tools = true ->
  str_split Char.newline (build_markdown_table tools)
  = TABLE_HEADER :: TABLE_RULE :: map table_row tools.
Proof.
  intros H. unfold build_markdown_table.
  change ([TABLE_HEADER; TABLE_RULE] ++ map table_row tools)%list
    with (TABLE_HEADER :: TABLE_RULE :: map table_row tools).
  apply TableFacts.split_join.
  change (forallb one_line (TABLE_HEADER :: TABLE_RULE :: map table_row tools))
    with (forallb one_line (map table_row tools)).
  rewrite forallb_forall in *. intros row Hrow.
  apply in_map_iff in Hrow as (tool & <- & Hin).
  apply TableFacts.table_row_one_line. now apply H.
Qed.

Lemma build_markdown_table_lines_witness :
  str_split Char.newline
    (build_markdown_table [("Appone", "Windows utility tool");
                           ("Appzero", "Windows utility tool")])
  = TABLE_HEADER :: TABLE_RULE
    :: map table_row [("Appone", "Windows utility tool");
                      ("Appzero", "Windows utility tool")].
Proof.
  apply (build_markdown_table_lines [("Appone", "Windows utility tool");
                                     ("Appzero", "Windows utility tool")]).
  reflexivity.
Defined.

(** X7.  The table holds the header line once for its own header and once
    more for every place in a row where the header text occurs; the rule
    line and the joins between lines add none. *)
Theorem build_markdown_table_header_count (tools : list (string * string)) :
  occurrences TABLE_HEADER (build_markdown_table tools)
  = 1 + list_sum (map (fun tool => occurrences TABLE_HEADER (table_row tool))
                      tools).
Proof.
  unfold build_markdown_table.
  change ([TABLE_HEADER; TABLE_RULE] ++ map table_row tools)%list
    with (TABLE_HEADER :: TABLE_RULE :: map table_row tools).
  rewrite TableFacts.occurrences_join. cbn [map list_sum].
  rewrite map_map. reflexivity.
Qed.

(* ================================================================= *)
(** ** The update, for every document *)

Module UpdateMore.
Import Re ReFacts UpdateFacts.

Lemma startswith_append (p s : string) : startswith p (p ++ s) = true.
Proof.
  induction p as [|c p IH]; simpl; [now destruct s|].
  now rewrite Ascii.eqb_refl, IH.
Qed.

Lemma drop_length_append (p s : string) : str_drop (String.length p) (p ++ s) = s.
Proof. induction p as [|c p IH]; simpl; [now destruct s | exact IH]. Qed.

Section SubTable.

Variable pieces : list Template.piece.
Variable table : string.
Hypothesis expand_table : forall m, Template.expand pieces m = table.

(** Neither the fuel nor the flag of the scan matters for the table
    pattern. *)
Lemma replaced_any_fuel :
  forall f1 f2 adv1 adv2 s,
    String.length s < f1 -> String.length s < f2 ->
    replaced pieces f1 adv1 s = replaced pieces f2 adv2 s.
Proof.
  induction f1 as [|f1 IH]; intros f2 adv1 adv2 s H1 H2; [lia|].
  destruct f2 as [|f2]; [lia|].
  destruct (startswith TABLE_HEADER s) eqn:E.
  - destruct (replaced_match pieces table expand_table f1 adv1 s E) as [a1 ->].
    destruct (replaced_match pieces table expand_table f2 adv2 s E) as [a2 ->].
    pose proof (rest_shorter s E). f_equal. apply IH; lia.
  - destruct s as [|c s]; [reflexivity|].
    rewrite !replaced_skip by exact E. simpl in H1, H2. f_equal. apply IH; lia.
Qed.

Lemma sub_table_replaced (s : string) :
  sub_table pieces s = replaced pieces (2 * String.length s + 2) false s.
Proof. reflexivity. Qed.

Lemma sub_table_nil : sub_table pieces "" = "".
Proof. reflexivity. Qed.

Lemma sub_table_skip (c : ascii) (s : string) :
  startswith TABLE_HEADER (String c s) = false ->
  sub_table pieces (String c s) = String c (sub_table pieces s).
Proof.
  intros E. rewrite !sub_table_replaced.
  rewrite (replaced_any_fuel _ (S (S (String.length s))) false false (String c s))
    by (simpl; lia).
  rewrite replaced_skip by exact E. f_equal.
  apply replaced_any_fuel; simpl; lia.
Qed.

Lemma sub_table_match (s : string) :
  startswith TABLE_HEADER s = true ->
  sub_table pieces s
  = table ++ sub_table pieces
               (line_end (str_drop (String.length TABLE_HEADER) s)).
Proof.
  intros E. rewrite !sub_table_replaced.
  rewrite (replaced_any_fuel _ (S (String.length s)) false false s) by lia.
  destruct (replaced_match pieces table expand_table
              (String.length s) false s E) as [adv' ->].
  pose proof (rest_shorter s E). f_equal.
  apply replaced_any_fuel; lia.
Qed.

(** Without the header the text is left as it is. *)
Lemma sub_table_no_header (s : string) :
  str_contains TABLE_HEADER s = false -> sub_table pieces s = s.
Proof.
  induction s as [|c s IH]; intros H; [reflexivity|].
  cbn [str_contains] in H. apply orb_false_elim in H as [E H].
  rewrite sub_table_skip by exact E. now rewrite IH.
Qed.

Lemma sub_table_split (s : string) :
  str_contains TABLE_HEADER s = true ->
  sub_table pieces s
  = text_before TABLE_HEADER s ++ table
    ++ sub_table pieces (after_first_line TABLE_HEADER s).
Proof.
  induction s as [|c s IH]; intros H; [discriminate|].
  destruct (startswith TABLE_HEADER (String c s)) eqn:E.
  - rewrite sub_table_match by exact E.
    cbn [text_before after_first_line]. now rewrite E.
  - cbn [str_contains] in H. rewrite E in H. simpl in H.
    rewrite sub_table_skip by exact E.
    cbn [text_before after_first_line]. rewrite E, (IH H). reflexivity.
Qed.

End SubTable.

(** The first occurrence and the rest of its line hold one occurrence. *)
Lemma occurrences_after (s : string) :
  str_contains TABLE_HEADER s = true ->
  1 + occurrences TABLE_HEADER (after_first_line TABLE_HEADER s)
  <= occurrences TABLE_HEADER s.
Proof.
  induction s as [|c s IH]; intros H; [discriminate|].
  rewrite occurrences_cons.
  destruct (startswith TABLE_HEADER (String c s)) eqn:E.
  - cbn [after_first_line]. rewrite E.
    pose proof (startswith_split _ _ E) as Hsplit.
    destruct (line_end_suffix
                (str_drop (String.length TABLE_HEADER) (String c s))) as [a Ha].
    rewrite Ha in Hsplit.
    apply startswith_tail in Hsplit as [b Hb]; [|exact header_not_empty].
    set (rest := line_end (str_drop (String.length TABLE_HEADER) (String c s)))
      in *.
    clearbody rest. rewrite Hb, <- append_assoc.
    pose proof (occurrences_suffix TABLE_HEADER (b ++ a) rest). lia.
  - cbn [str_contains] in H. rewrite E in H. simpl in H.
    cbn [after_first_line]. rewrite E. specialize (IH H). lia.
Qed.

Lemma updated_content_sub_table (original table : string) :
  str_contains TABLE_HEADER original = true ->
  no_backslash table = true ->
  exists pieces,
    (forall m, Template.expand pieces m = table)
    /\ updated_content (Some original) table = Ok (sub_table pieces original).
Proof.
  intros Hc Hb.
  destruct (updated_content_existing original table Hc Hb) as (pieces & He & Hu).
  exists pieces. split; [exact He | exact Hu].
Qed.

(** A letter that is no escape makes the template parser raise. *)
Lemma parse_bad_escape (c : ascii) (t2 : string) :
  bad_escape c = true ->
  forall fuel t1,
    String.length t1 < fuel ->
    no_backslash t1 = true ->
    Template.parse fuel (t1 ++ String Char.backslash (String c t2))
    = Raise BadTemplate.
Proof.
  unfold bad_escape, no_backslash. intros Hc.
  apply andb_prop in Hc as [Hc He]. apply andb_prop in Hc as [Ha Hg].
  apply negb_true_iff in Hg.
  assert (H0 : Ascii.eqb c "0" = false).
  { revert Ha. clear. CharFacts.each_char c. }
  assert (Hd : Char.isdigit c = false).
  { revert Ha. clear. CharFacts.each_char c. }
  induction fuel as [|fuel IH]; intros t1 Hlen Hb; [lia|].
  destruct t1 as [|a t1].
  - cbn [append Template.parse]. rewrite Ascii.eqb_refl. cbn [negb].
    rewrite Hg, H0, Hd, Ha.
    destruct (Template.escapes c); [discriminate | reflexivity].
  - simpl in Hb, Hlen. rewrite negb_orb in Hb. apply andb_prop in Hb as [Hab Hb].
    cbn [append Template.parse]. rewrite Hab, IH by (auto; lia). reflexivity.
Qed.

End UpdateMore.

(** X8.  Where the stored document holds the header line, and
    [read_text] returns it as it is stored (valid UTF-8, no carriage
    return), the text above the first occurrence of the header line is kept
    as it is and the table follows it (for a table without backslash, which
    [re.sub] inserts unchanged). *)
Theorem update_keeps_text_above (original table : string) :
  read_verbatim original = true ->
  str_contains TABLE_HEADER original = true ->
  no_backslash table = true ->
  exists after,
    update_markdown_file (Some original) table
    = Ok (Some (text_before TABLE_HEADER original ++ table ++ after)).
Proof.
  intros _ Hc Hb. unfold update_markdown_file.
  destruct (UpdateMore.updated_content_sub_table original table Hc Hb)
    as (pieces & He & ->).
  rewrite (UpdateMore.sub_table_split pieces table He original Hc).
  eexists. reflexivity.
Qed.

Lemma update_keeps_text_above_witness :
  exists after,
    update_markdown_file (Some old_document) new_table
    = Ok (Some (text_before TABLE_HEADER old_document ++ new_table ++ after)).
Proof.
  apply (update_keeps_text_above old_document new_table); reflexivity.
Defined.

(** One header: the header line is replaced, the rest is kept. *)
Lemma updated_header_line_only (original table : string) :
  occurrences TABLE_HEADER original = 1 ->
  no_backslash table = true ->
  update_markdown_file (Some original) table
  = Ok (Some (text_before TABLE_HEADER original ++ table
              ++ after_first_line TABLE_HEADER original)).
Proof.
  intros H1 Hb.
  assert (Hc : str_contains TABLE_HEADER original = true).
  { apply (UpdateFacts.contains_occurrences TABLE_HEADER
             UpdateFacts.header_not_empty). lia. }
  unfold update_markdown_file.
  destruct (UpdateMore.updated_content_sub_table original table Hc Hb)
    as (pieces & He & ->).
  rewrite (UpdateMore.sub_table_split pieces table He original Hc).
  rewrite (UpdateMore.sub_table_no_header pieces table He); [reflexivity|].
  pose proof (UpdateMore.occurrences_after original Hc) as Ha.
  destruct (str_contains TABLE_HEADER (after_first_line TABLE_HEADER original))
    eqn:E; [|reflexivity].
  apply (UpdateFacts.contains_occurrences TABLE_HEADER
           UpdateFacts.header_not_empty) in E. lia.
Qed.

(** X9.  For a stored document that holds the header line once and that
    [read_text] returns as it is stored (valid UTF-8, no carriage return),
    the new content is the text above the header, the table, and then the
    document from the end of the header's line on, as it was: only the
    header line itself is replaced, whatever follows it stays. *)
Theorem update_replaces_header_line_only (original table : string) :
  read_verbatim original = true ->
  occurrences TABLE_HEADER original = 1 ->
  no_backslash table = true ->
  update_markdown_file (Some original) table
  = Ok (Some (text_before TABLE_HEADER original ++ table
              ++ after_first_line TABLE_HEADER original)).
Proof. intros _. exact (updated_header_line_only original table). Qed.

Lemma update_replaces_header_line_only_witness :
  update_markdown_file (Some old_document) new_table
  = Ok (Some (text_before TABLE_HEADER old_document ++ new_table
              ++ after_first_line TABLE_HEADER old_document)).
Proof.
  apply (update_replaces_header_line_only old_document new_table);
    vm_compute; reflexivity.
Defined.





(* ================================================================= *)
(** ** The driver, for every directory *)

Module RunMore.

Lemma lower_period (c : ascii) : Ascii.eqb (Char.lower c) "." = Ascii.eqb c ".".
Proof. CharFacts.each_char c. Qed.

Lemma lower_lower (c : ascii) : Char.lower (Char.lower c) = Char.lower c.
Proof. CharFacts.each_char c. Qed.

Lemma rfind_lower (s : string) :
  str_rfind "." (str_lower s) = str_rfind "." s.
Proof.
  unfold str_lower. induction s as [|c s IH]; simpl; [reflexivity|].
  now rewrite IH, lower_period.
Qed.

Lemma length_lower (s : string) : String.length (str_lower s) = String.length s.
Proof. unfold str_lower. induction s; simpl; congruence. Qed.

Lemma drop_lower (n : nat) (s : string) :
  str_drop n (str_lower s) = str_lower (str_drop n s).
Proof.
  unfold str_lower. revert s. induction n as [|n IH]; intros [|c s]; simpl;
    auto.
Qed.

Lemma lower_idempotent (s : string) : str_lower (str_lower s) = str_lower s.
Proof.
  unfold str_lower. induction s as [|c s IH]; simpl; [reflexivity|].
  now rewrite IH, lower_lower.
Qed.

Lemma suffix_lower (name : string) :
  str_lower (name_suffix (str_lower name)) = str_lower (name_suffix name).
Proof.
  unfold name_suffix, suffix_start. rewrite rfind_lower, length_lower.
  destruct (str_rfind "." name) as [i|]; [|reflexivity].
  destruct ((0 <? i)%nat && (i <? String.length name - 1)%nat); [|reflexivity].
  now rewrite drop_lower, lower_idempotent.
Qed.

Section Collect.

Variable remote : oracle.

(** The loop never raises; it adds one pair per supported file, in the order
    of the listing, and makes the requests of one lookup for each. *)
Lemma collect_rows (items : list dir_entry) :
  forall collected log,
  exists tools per_file,
    collect remote items collected log
    = (Ok (collected ++ tools)%list, (log ++ concat per_file)%list)
    /\ map fst tools
       = map (fun item => display_name (entry_name item))
             (filter supported items)
    /\ Forall2 lookups_of tools per_file.
Proof.
  induction items as [|item items IH]; intros collected log.
  - exists [], []. simpl. rewrite !app_nil_r.
    split; [reflexivity|]. split; [reflexivity | constructor].
  - cbn [filter]. destruct (supported item) eqn:Hs.
    + destruct (NormalizeFacts.normalize_parts (entry_name item))
        as (n1 & n2 & n4 & _ & _ & _ & Hn).
      remember (str_title (str_strip n4)) as name eqn:Ename. clear Ename.
      destruct (query_ok remote name log)
        as (text & Hq & Hlog).
      destruct (query_tool_function remote name log) as [res log1] eqn:Eq.
      simpl in Hq, Hlog. subst res.
      rewrite (collect_supported remote item items collected log log1 name text
                 Hs Hn Eq).
      destruct (IH (collected ++ [(name, text)])%list log1)
        as (tools & per_file & -> & Hmap & Hall).
      destruct Hlog as [-> | ->].
      * exists ((name, text) :: tools), ([wiki_request name] :: per_file).
        rewrite <- !app_assoc. simpl. unfold display_name at 1. rewrite Hn, Hmap.
        split; [reflexivity|]. split; [reflexivity|].
        constructor; [now left | exact Hall].
      * exists ((name, text) :: tools),
          ([wiki_request name; ddg_request name] :: per_file).
        rewrite <- !app_assoc. simpl. unfold display_name at 1. rewrite Hn, Hmap.
        split; [reflexivity|]. split; [reflexivity|].
        constructor; [now right | exact Hall].
    + cbn [collect]. rewrite Hs. apply IH.
Qed.

End Collect.

End RunMore.

(** X12.  Over a directory whose supported files have ASCII names, the
    loop never raises.  It collects one pair per supported file, in the
    order of the listing, named by [normalize_tool_name] (two files with
    the same display name give two pairs), and skips every other entry.
    The requests it makes are, file by file in the same order, the requests
    of the lookup for that file's name: the encyclopedia request, alone or
    followed by the instant-answer request. *)
Theorem collect_one_row_per_supported_file
    (remote : oracle) (items : list dir_entry) (log : list request) :
  ascii_names items = true ->
  exists tools per_file,
    collect remote items [] log = (Ok tools, (log ++ concat per_file)%list)
    /\ map fst tools
       = map (fun item => display_name (entry_name item))
             (filter supported items)
    /\ Forall2 lookups_of tools per_file.
Proof. intros _. exact (RunMore.collect_rows remote items [] log). Qed.

Lemma collect_one_row_per_supported_file_witness :
  exists tools per_file,
    collect offline (no_tools_dir ++ [appzero_zip; appone_exe]) [] []
    = (Ok tools, ([] ++ concat per_file)%list)
    /\ map fst tools
       = map (fun item => display_name (entry_name item))
             (filter supported (no_tools_dir ++ [appzero_zip; appone_exe]))
    /\ Forall2 lookups_of tools per_file.
Proof.
  apply (collect_one_row_per_supported_file offline
           (no_tools_dir ++ [appzero_zip; appone_exe]) []).
  vm_compute. reflexivity.
Defined.

(** X13.  Over a directory whose supported files have ASCII names, and a
    target that does not exist, or that [read_text] returns as it is stored
    (valid UTF-8, no carriage return) and that holds no table header, the
    run raises nothing up to the write, and the text it hands to
    [write_text] is the text that was there, two newlines when there was a
    file, and the table of the collected tools sorted by lower-cased
    name. *)
Theorem main_writes_without_header
    (remote : oracle) (items : list dir_entry) (target : option string)
    (log : list request) :
  ascii_names items = true ->
  target_read_verbatim target = true ->
  has_header target = false ->
  exists tools log',
    collect remote items [] log = (Ok tools, log')
    /\ main remote items target log
       = (Ok (Some (kept_text target
                    ++ build_markdown_table (sort_by sort_key tools))), log').
Proof.
  intros _ _ Hh.
  destruct (RunMore.collect_rows remote items [] log)
    as (tools & reqs & Hc & _ & _).
  exists tools, (log ++ concat reqs)%list. split; [exact Hc|].
  unfold main, markdown_table, bind. rewrite Hc. unfold ret, lift.
  unfold update_markdown_file, updated_content.
  destruct target as [original|]; [|reflexivity].
  simpl in Hh. cbn [kept_text]. rewrite Hh. cbn [result_bind].
  rewrite !append_assoc. reflexivity.
Qed.

Lemma main_writes_without_header_witness :
  exists tools log',
    collect offline [appzero_zip; appone_exe] [] [] = (Ok tools, log')
    /\ main offline [appzero_zip; appone_exe] (Some "# Tools") []
       = (Ok (Some (kept_text (Some "# Tools")
                    ++ build_markdown_table (sort_by sort_key tools))), log').
Proof.
  apply (main_writes_without_header offline [appzero_zip; appone_exe]
           (Some "# Tools") []); reflexivity.
Defined.

(** X14.  Whether an entry is taken does not depend on the letter case of
    its name: two files whose names differ only in case are both supported
    or both skipped. *)
Theorem supported_ignores_case (name1 name2 : string) (file : bool) :
  str_lower name1 = str_lower name2 ->
  supported {| entry_name := name1; is_file := file |}
  = supported {| entry_name := name2; is_file := file |}.
Proof.
  intros H. unfold supported. simpl.
  rewrite <- (RunMore.suffix_lower name1), <- (RunMore.suffix_lower name2), H.
  reflexivity.
Qed.

Lemma supported_ignores_case_witness :
  supported {| entry_name := "Setup.EXE"; is_file := true |}
  = supported {| entry_name := "setup.exe"; is_file := true |}.
Proof.
  apply (supported_ignores_case "Setup.EXE" "setup.exe" true). reflexivity.
Defined.

(* ================================================================= *)
(** ** The normalizer, for every name *)

Module NormalizeMore.
Import Re ReFacts.

Lemma forallb_and (P Q : ascii -> bool) (s : string) :
  str_forallb (fun c => P c && Q c) s = str_forallb P s && str_forallb Q s.
Proof.
  induction s as [|c s IH]; simpl; [reflexivity|]. rewrite IH.
  destruct (P c), (Q c), (str_forallb P s); reflexivity.
Qed.

Lemma pieces_all_and (P Q : ascii -> bool) x :
  pieces_all P x = true -> pieces_all Q x = true ->
  pieces_all (fun c => P c && Q c) x = true.
Proof.
  destruct x as [ms tail]. unfold pieces_all. simpl. intros HP HQ.
  apply andb_prop in HP as [HP HPt]. apply andb_prop in HQ as [HQ HQt].
  rewrite forallb_and, HPt, HQt, andb_true_r.
  rewrite forallb_forall in *. intros gm Hin.
  now rewrite forallb_and, (HP gm Hin), (HQ gm Hin).
Qed.

Lemma final_accepts_shorter (adv : bool) (c : ascii) (s : string) :
  (if adv && (String.length s =? String.length (String c s))%nat
   then None else Some s) <> None.
Proof.
  replace (String.length s =? String.length (String c s))%nat with false
    by (symmetry; apply Nat.eqb_neq; simpl; lia).
  rewrite andb_false_r. discriminate.
Qed.

(** The cut pattern matches at each of its ASCII characters. *)
Lemma annotation_leaves_no_cut (adv : bool) (c : ascii) (s : string) :
  match_at no_flags annotation_re adv (String c s) = None -> not_cut c = true.
Proof.
  unfold not_cut. destruct (is_cut c) eqn:Hc; [|reflexivity].
  unfold match_at, annotation_re.
  remember (Alt (Word (utf8_pair 195 175))
              (Alt (Word (utf8_pair 194 188)) (Word (utf8_pair 203 134))))
    as others.
  simpl. unfold in_matches. simpl. fold (is_cut c). rewrite Hc.
  pose proof (final_accepts_shorter adv c s) as Hk.
  destruct (if adv && _ then None else Some s); [discriminate | contradiction].
Qed.

(** The joint pattern matches at each of its characters. *)
Lemma separator_leaves_no_joint (adv : bool) (c : ascii) (s : string) :
  match_at no_flags separator_re adv (String c s) = None -> not_joint c = true.
Proof.
  unfold not_joint. destruct (is_joint c) eqn:Hc; [|reflexivity].
  unfold match_at, separator_re, Plus.
  remember (Star true (In (fun c0 => Ascii.eqb c0 "." || Ascii.eqb c0 "_"
                                     || Ascii.eqb c0 "-"))) as more.
  simpl. unfold in_matches. simpl. fold (is_joint c). rewrite Hc. subst more.
  intros H. exfalso. revert H.
  apply (star_loop_total
           (mt no_flags (In (fun c0 => Ascii.eqb c0 "." || Ascii.eqb c0 "_"
                                       || Ascii.eqb c0 "-"))) true).
  exact (final_accepts_shorter adv c s).
Qed.

Lemma truncate_no_cut (name : string) :
  str_forallb not_cut (truncate_at_separator name) = true.
Proof.
  unfold truncate_at_separator, split.
  assert (H : pieces_all not_cut (finditer no_flags annotation_re name) = true).
  { apply scan_leaves.
    - simpl. lia.
    - exact annotation_leaves_no_cut.
    - lia. }
  destruct (finditer no_flags annotation_re name) as [ms tail].
  now apply split_first_all.
Qed.

(** After the two steps no cut and no joint character is left. *)
Lemma collapse_no_separator (name : string) :
  str_forallb not_cut name = true ->
  exists out, collapse_separators name = Ok out
              /\ str_forallb not_separator out = true.
Proof.
  intros H. unfold collapse_separators, ReSub.sub.
  change (Template.parse_template " ") with (Ok [Template.Literal " "]).
  simpl result_bind.
  assert (Hs : pieces_all (fun c => not_cut c && not_joint c)
                 (finditer no_flags separator_re name) = true).
  { apply pieces_all_and.
    - exact (scan_keeps not_cut no_flags separator_re _ false name H).
    - apply scan_leaves.
      + simpl. lia.
      + exact separator_leaves_no_joint.
      + lia. }
  destruct (finditer no_flags separator_re name) as [ms tail].
  eexists. split; [reflexivity|].
  assert (Hq : forall s, str_forallb (fun c => not_cut c && not_joint c) s
                         = str_forallb not_separator s).
  { induction s as [|c s IH]; simpl; [reflexivity|]. rewrite IH. f_equal.
    unfold not_separator, is_separator, not_cut, not_joint.
    now rewrite negb_orb. }
  rewrite <- Hq. apply substitute_all; [reflexivity | exact Hs].
Qed.

Lemma not_separator_lower c : not_separator (Char.lower c) = not_separator c.
Proof. CharFacts.each_char c. Qed.

Lemma not_separator_upper c : not_separator (Char.upper c) = not_separator c.
Proof. CharFacts.each_char c. Qed.

Lemma isspace_lower c : Char.isspace (Char.lower c) = Char.isspace c.
Proof. CharFacts.each_char c. Qed.

Lemma isspace_upper c : Char.isspace (Char.upper c) = Char.isspace c.
Proof. CharFacts.each_char c. Qed.

(** *** Trimmed texts *)

Lemma lstrip_starts_clean (s : string) : starts_clean (str_lstrip s) = true.
Proof.
  induction s as [|c s IH]; simpl; [reflexivity|].
  destruct (Char.isspace c) eqn:E; [exact IH|]. simpl. now rewrite E.
Qed.

Lemma rstrip_ends_clean (s : string) : ends_clean (str_rstrip s) = true.
Proof.
  induction s as [|c s IH]; simpl; [reflexivity|].
  destruct (str_rstrip s) as [|d t] eqn:E.
  - destruct (Char.isspace c) eqn:Ec; simpl; [reflexivity | now rewrite Ec].
  - exact IH.
Qed.

Lemma rstrip_starts_clean (s : string) :
  starts_clean s = true -> starts_clean (str_rstrip s) = true.
Proof.
  destruct s as [|c s]; simpl; [auto|]. intros H.
  destruct (str_rstrip s); [|exact H].
  destruct (Char.isspace c) eqn:E; [discriminate | simpl; now rewrite E].
Qed.

Lemma lstrip_fixed (s : string) : starts_clean s = true -> str_lstrip s = s.
Proof.
  destruct s as [|c s]; simpl; [reflexivity|].
  now destruct (Char.isspace c).
Qed.

Lemma rstrip_fixed (s : string) : ends_clean s = true -> str_rstrip s = s.
Proof.
  induction s as [|c s IH]; [reflexivity|]. intros H.
  change (str_rstrip (String c s))
    with (match str_rstrip s with
          | "" => if Char.isspace c then "" else String c ""
          | t => String c t
          end).
  destruct s as [|d s].
  - simpl in *. now destruct (Char.isspace c).
  - rewrite IH by exact H. reflexivity.
Qed.

Lemma title_starts_clean (s : string) (b : bool) :
  starts_clean (title_from b s) = starts_clean s.
Proof.
  destruct s as [|c s]; simpl; [reflexivity|].
  destruct b; [now rewrite isspace_lower | now rewrite isspace_upper].
Qed.

Lemma title_ends_clean (s : string) :
  forall b, ends_clean (title_from b s) = ends_clean s.
Proof.
  induction s as [|c s IH]; intros b; [reflexivity|].
  destruct s as [|d s].
  - simpl. destruct b; [now rewrite isspace_lower | now rewrite isspace_upper].
  - change (title_from b (String c (String d s)))
      with (String (if b then Char.lower c else Char.upper c)
                   (title_from (Char.iscased c) (String d s))).
    specialize (IH (Char.iscased c)).
    change (ends_clean (String c (String d s))) with (ends_clean (String d s)).
    rewrite <- IH. simpl. reflexivity.
Qed.

Lemma title_of_strip_trimmed (s : string) :
  str_strip (title_from false (str_strip s)) = title_from false (str_strip s).
Proof.
  unfold str_strip at 1.
  assert (Hs : starts_clean (str_strip s) = true)
    by apply rstrip_starts_clean, lstrip_starts_clean.
  assert (He : ends_clean (str_strip s) = true) by apply rstrip_ends_clean.
  rewrite lstrip_fixed by now rewrite title_starts_clean.
  apply rstrip_fixed. now rewrite title_ends_clean.
Qed.

End NormalizeMore.

(** The name of an ASCII file name has none of the four separators. *)
Lemma normalize_no_separator (filename : string) :
  is_ascii filename = true ->
  exists name,
    normalize_tool_name filename = Ok name /\ has_separator name = false.
Proof.
  intros Ha.
  destruct (NormalizeFacts.normalize_ascii filename Ha)
    as (n1 & n2 & n4 & E1 & E2 & E4 & _ & En).
  eexists. split; [exact En|].
  destruct (NormalizeMore.collapse_no_separator _
              (NormalizeMore.truncate_no_cut n2)) as (n4' & E4' & H4).
  assert (n4' = n4) by congruence. subst n4'.
  unfold has_separator. rewrite existsb_forallb.
  change (fun c => negb (is_separator c)) with not_separator.
  rewrite title_from_keeps;
    [reflexivity | exact NormalizeMore.not_separator_lower
     | exact NormalizeMore.not_separator_upper | now apply strip_keeps].
Qed.

(** X15.  For every ASCII file name [normalize_tool_name] returns a name,
    and the name holds no underscore, hyphen, open parenthesis or period: it
    is cut at the first of the first three, and the periods left become
    spaces. *)
Theorem normalize_tool_name_no_separator (filename : string) :
  is_ascii filename = true ->
  exists name,
    normalize_tool_name filename = Ok name /\ has_separator name = false.
Proof. exact (normalize_no_separator filename). Qed.

Lemma normalize_tool_name_no_separator_witness :
  exists name,
    normalize_tool_name "my.little.tool (beta)-2.zip" = Ok name
    /\ has_separator name = false.
Proof.
  apply (normalize_tool_name_no_separator "my.little.tool (beta)-2.zip").
  reflexivity.
Defined.

(** The name of an ASCII file name is trimmed. *)
Lemma normalize_trimmed (filename name : string) :
  is_ascii filename = true ->
  normalize_tool_name filename = Ok name -> str_strip name = name.
Proof.
  intros Ha Hn.
  destruct (NormalizeFacts.normalize_ascii filename Ha)
    as (n1 & n2 & n4 & _ & _ & _ & _ & En).
  rewrite En in Hn. injection Hn as <-.
  apply NormalizeMore.title_of_strip_trimmed.
Qed.

(** X16.  The name [normalize_tool_name] returns for an ASCII file name has
    no white space at its start or end: trimming it changes nothing. *)
Theorem normalize_tool_name_trimmed (filename name : string) :
  is_ascii filename = true ->
  normalize_tool_name filename = Ok name -> str_strip name = name.
Proof. exact (normalize_trimmed filename name). Qed.

Lemma normalize_tool_name_trimmed_witness :
  str_strip "My Tool" = "My Tool".
Proof.
  apply (normalize_tool_name_trimmed " my.tool -v2.zip" "My Tool");
    vm_compute; reflexivity.
Defined.

(* ================================================================= *)
(** ** Display names are fixed points of the normalizer *)

Module NormalizeStable.
Import Re ReFacts.

(** *** Where the pattern cannot match, nothing changes *)

Lemma scan_no_match (Q : ascii -> bool) (fl : flags) (r : regex) :
  (forall adv t, str_forallb Q t = true -> match_at fl r adv t = None) ->
  forall fuel adv s, str_forallb Q s = true -> scan fuel fl r adv s = ([], s).
Proof.
  intros Hnone. induction fuel as [|fuel IH]; intros adv s Hs; [reflexivity|].
  cbn [scan]. rewrite (Hnone adv s Hs).
  destruct s as [|c s]; [reflexivity|].
  simpl in Hs. apply andb_prop in Hs as [_ Hs]. now rewrite (IH false s Hs).
Qed.

Lemma sub_no_match (Q : ascii -> bool) (fl : flags) (r : regex)
    (repl : string) (pieces : list Template.piece) (s : string) :
  (forall adv t, str_forallb Q t = true -> match_at fl r adv t = None) ->
  Template.parse_template repl = Ok pieces ->
  str_forallb Q s = true ->
  ReSub.sub fl r repl s = Ok s.
Proof.
  intros Hnone Hp Hs. unfold ReSub.sub, finditer. rewrite Hp.
  simpl result_bind. now rewrite (scan_no_match Q fl r Hnone _ false s Hs).
Qed.

(** *** The four patterns on plain text *)

Lemma lit_matches_digit (c a : ascii) :
  lit_matches I c a = true -> Char.isdigit c = Char.isdigit a.
Proof.
  unfold lit_matches. simpl. intros H. apply Ascii.eqb_eq in H.
  rewrite <- (CharFacts.isdigit_lower c), <- (CharFacts.isdigit_lower a).
  now rewrite H.
Qed.

(** A word that has a digit does not match where there is none. *)
Lemma word_needs_digit (w : string) :
  str_existsb Char.isdigit w = true ->
  forall t k, str_forallb not_digit t = true -> mt I (Word w) t k = None.
Proof.
  induction w as [|c w IH]; intros Hw t k Ht; [discriminate|].
  simpl in Hw.
  change (mt I (Word (String c w)) t k)
    with (match t with
          | String a t' => if lit_matches I c a then mt I (Word w) t' k else None
          | "" => None
          end).
  destruct t as [|a t]; [reflexivity|].
  simpl in Ht. apply andb_prop in Ht as [Ha Ht].
  destruct (lit_matches I c a) eqn:E; [|reflexivity].
  apply lit_matches_digit in E. unfold not_digit in Ha.
  destruct (Char.isdigit c) eqn:Ec.
  - rewrite <- E in Ha. discriminate.
  - simpl in Hw. now apply IH.
Qed.

Lemma arch_none (adv : bool) (t : string) :
  str_forallb not_digit t = true -> match_at I arch_re adv t = None.
Proof.
  intros Ht. unfold match_at, arch_re.
  cbn [mt].
  rewrite (word_needs_digit "x64" eq_refl _ _ Ht),
    (word_needs_digit "x86" eq_refl _ _ Ht),
    (word_needs_digit "win32" eq_refl _ _ Ht),
    (word_needs_digit "win64" eq_refl _ _ Ht).
  reflexivity.
Qed.

Lemma in_digit_none (a : ascii) :
  not_digit a = true -> in_matches I Char.isdigit a = false.
Proof.
  unfold not_digit, in_matches. simpl.
  rewrite CharFacts.isdigit_lower, CharFacts.isdigit_upper.
  now destruct (Char.isdigit a).
Qed.

Lemma version_none (adv : bool) (t : string) :
  str_forallb not_digit t = true -> match_at I version_re adv t = None.
Proof.
  intros Ht. unfold match_at, version_re, Opt, Plus.
  remember (Star true (In Char.isdigit)) as digits eqn:Edigits.
  remember (Star true (Cat (Lit ".") (Cat (In Char.isdigit) digits)))
    as groups eqn:Egroups.
  assert (Hgo : forall u k, str_forallb not_digit u = true ->
                  mt I (Cat (Cat (In Char.isdigit) digits) groups) u k = None).
  { intros u k Hu. simpl. destruct u as [|a u]; [reflexivity|].
    simpl in Hu. apply andb_prop in Hu as [Ha _].
    now rewrite (in_digit_none a Ha). }
  change (mt I (Cat (Alt (Lit "v") Eps) (Cat (Cat (In Char.isdigit) digits) groups))
             t ?k)
    with (match mt I (Lit "v") t
                  (fun s' => mt I (Cat (Cat (In Char.isdigit) digits) groups) s' k)
          with
          | Some x => Some x
          | None => mt I (Cat (Cat (In Char.isdigit) digits) groups) t k
          end).
  assert (Hlit : forall k',
            (forall u, str_forallb not_digit u = true -> k' u = None) ->
            mt I (Lit "v") t k' = None).
  { intros k' Hk'. destruct t as [|a t]; [reflexivity|]. simpl in Ht |- *.
    apply andb_prop in Ht as [_ Ht].
    destruct (lit_matches I "v" a); [now apply Hk' | reflexivity]. }
  rewrite Hlit by (intros u Hu; now apply Hgo).
  exact (Hgo t _ Ht).
Qed.

Lemma startswith_not_ascii (c : ascii) (w t : string) :
  Char.is_ascii c = false -> is_ascii t = true ->
  startswith (String c w) t = false.
Proof.
  intros Hc Ht. destruct t as [|a t]; [reflexivity|]. simpl.
  unfold is_ascii in Ht. simpl in Ht. apply andb_prop in Ht as [Ha _].
  destruct (Ascii.eqb_spec c a) as [->|]; [congruence | reflexivity].
Qed.

Lemma annotation_none (adv : bool) (t : string) :
  str_forallb (fun c => Char.is_ascii c && not_cut c) t = true ->
  match_at no_flags annotation_re adv t = None.
Proof.
  rewrite NormalizeMore.forallb_and. intros H.
  apply andb_prop in H as [Ha Hc].
  unfold match_at, annotation_re. cbn [mt].
  rewrite !mt_word by reflexivity.
  unfold utf8_pair.
  rewrite !startswith_not_ascii by (reflexivity || exact Ha).
  destruct t as [|a t]; [reflexivity|].
  simpl in Hc. apply andb_prop in Hc as [Hc _].
  unfold in_matches. simpl. unfold not_cut, is_cut in Hc.
  now destruct (Ascii.eqb a "_" || Ascii.eqb a "-" || Ascii.eqb a "(").
Qed.

Lemma separator_none (adv : bool) (t : string) :
  str_forallb not_joint t = true ->
  match_at no_flags separator_re adv t = None.
Proof.
  intros H. unfold match_at, separator_re, Plus.
  remember (Star true (In (fun c0 => Ascii.eqb c0 "." || Ascii.eqb c0 "_"
                                     || Ascii.eqb c0 "-"))) as more.
  simpl. destruct t as [|a t]; [reflexivity|].
  simpl in H. apply andb_prop in H as [Hc _].
  unfold in_matches. simpl. unfold not_joint, is_joint in Hc.
  now destruct (Ascii.eqb a "." || Ascii.eqb a "_" || Ascii.eqb a "-").
Qed.

(** *** Paths *)

(** No piece of a split holds the separator. *)
Lemma split_pieces (sep : ascii) (s : string) :
  forallb (str_forallb (fun c => negb (Ascii.eqb c sep))) (str_split sep s)
  = true.
Proof.
  induction s as [|c s IH]; simpl; [reflexivity|].
  destruct (Ascii.eqb c sep) eqn:E; [exact IH|].
  destruct (str_split sep s) as [|p ps]; simpl in *; [now rewrite E|].
  apply andb_prop in IH as [Hp Hps]. now rewrite E, Hp, Hps.
Qed.

Lemma split_single (sep : ascii) (s : string) :
  str_forallb (fun c => negb (Ascii.eqb c sep)) s = true ->
  str_split sep s = [s].
Proof.
  induction s as [|c s IH]; simpl; [reflexivity|]. intros H.
  apply andb_prop in H as [Hc Hs].
  destruct (Ascii.eqb c sep); [discriminate|]. now rewrite IH.
Qed.

Lemma path_name_no_slash (p : string) :
  str_forallb not_slash (path_name p) = true.
Proof.
  unfold path_name. apply last_keeps; [|reflexivity].
  apply forallb_filter. exact (split_pieces "/" p).
Qed.

Lemma rfind_none (s : string) :
  str_forallb not_period s = true -> str_rfind "." s = None.
Proof.
  unfold not_period. induction s as [|c s IH]; simpl; [reflexivity|].
  intros H. apply andb_prop in H as [Hc Hs]. rewrite (IH Hs).
  now destruct (Ascii.eqb c ".").
Qed.

Lemma strip_extension_fixed (name : string) :
  str_forallb not_slash name = true ->
  str_forallb not_period name = true ->
  strip_extension name = name.
Proof.
  intros Hs Hp. unfold strip_extension, path_name.
  rewrite (split_single "/" name Hs).
  assert (Hlast : last (filter (fun x => negb (String.eqb x "")
                                         && negb (String.eqb x ".")) [name]) ""
                  = name).
  { simpl. destruct (String.eqb_spec name "") as [->|_]; [reflexivity|].
    destruct (String.eqb_spec name ".") as [->|_]; [discriminate|].
    reflexivity. }
  rewrite Hlast. unfold name_stem, suffix_start. now rewrite rfind_none.
Qed.

(** *** What every step keeps *)

Section Keeps.

Variable Q : ascii -> bool.
Hypothesis Q_space : Q " " = true.
Hypothesis Q_lower : forall c, Q (Char.lower c) = Q c.
Hypothesis Q_upper : forall c, Q (Char.upper c) = Q c.

Lemma normalize_keeps (filename name : string) :
  is_ascii filename = true ->
  str_forallb Q (strip_extension filename) = true ->
  normalize_tool_name filename = Ok name ->
  str_forallb Q name = true.
Proof.
  intros Ha H0 Hn.
  destruct (NormalizeFacts.normalize_ascii filename Ha)
    as (n1 & n2 & n4 & E1 & E2 & E4 & _ & En).
  rewrite En in Hn. injection Hn as <-.
  apply title_from_keeps; auto.
  now apply (NormalizeFacts.steps_keep Q (strip_extension filename) n1 n2 n4).
Qed.

End Keeps.

Lemma not_slash_lower c : not_slash (Char.lower c) = not_slash c.
Proof. CharFacts.each_char c. Qed.

Lemma not_slash_upper c : not_slash (Char.upper c) = not_slash c.
Proof. CharFacts.each_char c. Qed.

(** A trimmed, title-cased text of plain characters is its own display
    name. *)
Lemma normalize_fixed (name : string) :
  is_ascii name = true ->
  str_forallb not_digit name = true ->
  str_forallb not_separator name = true ->
  str_forallb not_slash name = true ->
  str_strip name = name ->
  is_title_cased name = true ->
  normalize_tool_name name = Ok name.
Proof.
  intros Ha Hd Hsep Hsl Hstrip Htitle.
  assert (Hsplit : forall P, (forall c, not_separator c = true -> P c = true) ->
                             str_forallb P name = true).
  { intros P HP. clear -Hsep HP. induction name as [|c s IH]; [reflexivity|].
    simpl in *. apply andb_prop in Hsep as [Hc Hs]. now rewrite HP, IH. }
  assert (Hperiod : str_forallb not_period name = true).
  { apply Hsplit. intros c. unfold not_separator, is_separator, is_joint,
      not_period. destruct (Ascii.eqb c "."); [|reflexivity].
    rewrite orb_true_r. discriminate. }
  assert (Hcut : str_forallb not_cut name = true).
  { apply Hsplit. intros c. unfold not_separator, is_separator, not_cut.
    now destruct (is_cut c). }
  assert (Hjoint : str_forallb not_joint name = true).
  { apply Hsplit. intros c. unfold not_separator, is_separator, not_joint.
    destruct (is_joint c); [|reflexivity]. rewrite orb_true_r. discriminate. }
  unfold normalize_tool_name.
  rewrite (strip_extension_fixed name Hsl Hperiod).
  unfold strip_arch.
  rewrite (sub_no_match not_digit I arch_re "" [] name arch_none eq_refl Hd).
  simpl result_bind. unfold strip_version.
  rewrite (sub_no_match not_digit I version_re "" [] name version_none eq_refl Hd).
  simpl result_bind.
  assert (Htr : truncate_at_separator name = name).
  { unfold truncate_at_separator, split, finditer.
    rewrite (scan_no_match (fun c => Char.is_ascii c && not_cut c) no_flags
               annotation_re annotation_none _ false name); [reflexivity|].
    rewrite NormalizeMore.forallb_and. unfold is_ascii in Ha.
    now rewrite Ha, Hcut. }
  rewrite Htr. unfold collapse_separators.
  rewrite (sub_no_match not_joint no_flags separator_re " "
             [Template.Literal " "] name separator_none eq_refl Hjoint).
  simpl result_bind. rewrite Hstrip, (str_title_ascii name Ha).
  now rewrite (title_cased_fixed name false Htitle).
Qed.

End NormalizeStable.

(** X17.  The display name of an ASCII file name is a fixed point of the
    normalizer: [normalize_tool_name] applied to the name it returned
    returns the same name. *)
Theorem normalize_tool_name_idempotent (filename name : string) :
  is_ascii filename = true ->
  normalize_tool_name filename = Ok name ->
  normalize_tool_name name = Ok name.
Proof.
  intros Ha Hn.
  destruct (NormalizeFacts.normalize_tool_name_clean filename Ha)
    as (n1 & Hn1 & Hdigit & Htitle & Hascii).
  destruct (normalize_no_separator filename Ha) as (n2 & Hn2 & Hsep).
  assert (n1 = name) by congruence. assert (n2 = name) by congruence. subst.
  apply NormalizeStable.normalize_fixed.
  - exact Hascii.
  - exact Hdigit.
  - unfold has_separator in Hsep. rewrite existsb_forallb in Hsep.
    apply negb_false_iff in Hsep. exact Hsep.
  - apply (NormalizeStable.normalize_keeps not_slash eq_refl
             NormalizeStable.not_slash_lower NormalizeStable.not_slash_upper
             filename name); [exact Ha | | exact Hn].
    apply name_stem_keeps, NormalizeStable.path_name_no_slash.
  - now apply (normalize_trimmed filename).
  - exact Htitle.
Qed.

Lemma normalize_tool_name_idempotent_witness :
  normalize_tool_name "Diskgeniuspro" = Ok "Diskgeniuspro".
Proof.
  apply (normalize_tool_name_idempotent "DiskGeniusPro_x64_v1.2.3.7z"
           "Diskgeniuspro"); vm_compute; reflexivity.
Defined.
